(** * rawzeo: the Zeo raw-data frame parser

    Shallow embedding of [src/src/lib.rs] (the frame-type tables) and of
    [parse] in [src/src/main.rs] (the streaming frame decoder).

    Bytes ([u8]) and wider unsigned integers ([u16], [u32]) are [Z] values in
    their ranges.  The [CircularBuffer] ring is a [list Z] with its front at
    the head: inside [parse] it only shrinks, except for the two
    [push_front] calls that restore bytes just popped, so its capacity is
    never reached there.  The [VecDeque] payload is a [list Z].

    Rust integer overflow is modelled by the flag [checked]: with overflow
    checks enabled (debug builds) a non-wrapping [u8] / [u16] subtraction
    that underflows panics; without them (release builds) it wraps. *)

From Stdlib Require Import String ZArith List Bool Lia.
Import ListNotations.
Open Scope Z_scope.

(** ** Frame-type tables ([src/src/lib.rs]) *)

Inductive DataType :=
| Event | SliceEnd | Version | Waveform | FrequencyBins | Sqi
| ZeoTimestamp | Impedance | BadSignal | SleepStage
| DataType_Invalid (b : Z).

(** [impl From<u8> for DataType] *)
Definition DataType_from (b : Z) : DataType :=
  if b =? 0x00 then Event
  else if b =? 0x02 then SliceEnd
  else if b =? 0x03 then Version
  else if b =? 0x80 then Waveform
  else if b =? 0x83 then FrequencyBins
  else if b =? 0x84 then Sqi
  else if b =? 0x8A then ZeoTimestamp
  else if b =? 0x97 then Impedance
  else if b =? 0x9C then BadSignal
  else if b =? 0x9D then SleepStage
  else DataType_Invalid b.

Inductive EventType :=
| NightStart | SleepOnset | HeadbandDocked | HeadbandUnDocked
| AlarmOff | AlarmSnooze | AlarmPlay | NightEnd | NewHeadband
| EventType_Invalid (b : Z).

(** The declared discriminants of [enum EventType] ([#[repr(u8)]]). *)
Definition EventType_discriminant (e : EventType) : Z :=
  match e with
  | NightStart => 0x05
  | SleepOnset => 0x07
  | HeadbandDocked => 0x0E
  | HeadbandUnDocked => 0x0F
  | AlarmOff => 0x10
  | AlarmSnooze => 0x11
  | AlarmPlay => 0x13
  | NightEnd => 0x15
  | NewHeadband => 0x24
  | EventType_Invalid _ => 0xFF
  end.

(** [impl From<u8> for EventType] *)
Definition EventType_from (b : Z) : EventType :=
  if b =? 0x05 then NightStart
  else if b =? 0x07 then SleepOnset
  else if b =? 0x0E then HeadbandDocked
  else if b =? 0x8F then HeadbandUnDocked
  else if b =? 0x10 then AlarmOff
  else if b =? 0x11 then AlarmSnooze
  else if b =? 0x13 then AlarmPlay
  else if b =? 0x15 then NightEnd
  else if b =? 0x24 then NewHeadband
  else EventType_Invalid b.

(** The declared discriminants of [enum DataType] ([#[repr(u8)]]). *)
Definition DataType_discriminant (d : DataType) : Z :=
  match d with
  | Event => 0x00
  | SliceEnd => 0x02
  | Version => 0x03
  | Waveform => 0x80
  | FrequencyBins => 0x83
  | Sqi => 0x84
  | ZeoTimestamp => 0x8A
  | Impedance => 0x97
  | BadSignal => 0x9C
  | SleepStage => 0x9D
  | DataType_Invalid _ => 0xFF
  end.

(** [enum FrequencyBins] *)
Inductive FrequencyBin :=
| Delta | Theta | Alpha | BetaMid | BetaHigh | BetaLow | Gamma
| FrequencyBins_Invalid (b : Z).

Definition FrequencyBins_discriminant (f : FrequencyBin) : Z :=
  match f with
  | Delta => 0x00
  | Theta => 0x01
  | Alpha => 0x02
  | BetaMid => 0x03
  | BetaHigh => 0x04
  | BetaLow => 0x05
  | Gamma => 0x06
  | FrequencyBins_Invalid _ => 0xFF
  end.

(** [FrequencyBins::hz] *)
Definition FrequencyBins_hz (f : FrequencyBin) : Z * Z :=
  match f with
  | Delta => (2, 4)
  | Theta => (4, 8)
  | Alpha => (8, 13)
  | BetaLow => (11, 14)
  | BetaMid => (13, 18)
  | BetaHigh => (18, 21)
  | Gamma => (30, 50)
  | FrequencyBins_Invalid _ => (0, 0)
  end.

Definition FrequencyBins_is_delta (f : FrequencyBin) : bool :=
  match f with Delta => true | _ => false end.
Definition FrequencyBins_is_theta (f : FrequencyBin) : bool :=
  match f with Theta => true | _ => false end.
Definition FrequencyBins_is_alpha (f : FrequencyBin) : bool :=
  match f with Alpha => true | _ => false end.
Definition FrequencyBins_is_gamma (f : FrequencyBin) : bool :=
  match f with Gamma => true | _ => false end.
Definition FrequencyBins_is_betta (f : FrequencyBin) : bool :=
  match f with BetaLow | BetaMid | BetaHigh => true | _ => false end.

(** [impl From<u8> for FrequencyBins] *)
Definition FrequencyBins_from (b : Z) : FrequencyBin :=
  if b =? 0x00 then Delta
  else if b =? 0x01 then Theta
  else if b =? 0x02 then Alpha
  else if b =? 0x03 then BetaMid
  else if b =? 0x04 then BetaHigh
  else if b =? 0x05 then BetaLow
  else if b =? 0x06 then Gamma
  else FrequencyBins_Invalid b.

(** [enum SleepStages] *)
Inductive SleepStages :=
| Undefined | Awake | Rem | Light | Deep
| SleepStages_Invalid (b : Z).

Definition SleepStages_discriminant (st : SleepStages) : Z :=
  match st with
  | Undefined => 0x00
  | Awake => 0x01
  | Rem => 0x02
  | Light => 0x03
  | Deep => 0x04
  | SleepStages_Invalid _ => 0xFF
  end.

(** [impl From<u8> for SleepStages] *)
Definition SleepStages_from (b : Z) : SleepStages :=
  if b =? 0x00 then Undefined
  else if b =? 0x01 then Awake
  else if b =? 0x02 then Rem
  else if b =? 0x03 then Light
  else if b =? 0x04 then Deep
  else SleepStages_Invalid b.

(** ** The [Display] impls of the tables *)

(** [{b}] for a [u8]: its decimal digits, without padding. *)
Definition digit_string (d : Z) : string :=
  nth (Z.to_nat d) ["0"; "1"; "2"; "3"; "4"; "5"; "6"; "7"; "8"; "9"]%string ""%string.

Definition u8_to_string (b : Z) : string :=
  if b <? 10 then digit_string b
  else if b <? 100 then String.append (digit_string (b / 10)) (digit_string (b mod 10))
  else String.append (digit_string (b / 100))
         (String.append (digit_string (b / 10 mod 10)) (digit_string (b mod 10))).

(** [format!["Invalid({b})"]] *)
Definition invalid_string (b : Z) : string :=
  String.append "Invalid(" (String.append (u8_to_string b) ")").

(** [impl fmt::Display for DataType] *)
Definition DataType_fmt (d : DataType) : string :=
  match d with
  | Event => "Event"
  | SliceEnd => "SliceEnd"
  | Version => "Version"
  | Waveform => "Waveform"
  | FrequencyBins => "FrequencyBins"
  | Sqi => "Sqi"
  | ZeoTimestamp => "ZeoTimestamp"
  | Impedance => "Impedance"
  | BadSignal => "BadSignal"
  | SleepStage => "SleepStage"
  | DataType_Invalid b => invalid_string b
  end.

(** [impl fmt::Display for EventType] *)
Definition EventType_fmt (e : EventType) : string :=
  match e with
  | NightStart => "NightStart"
  | SleepOnset => "SleepOnset"
  | HeadbandDocked => "HeadbandDocked"
  | HeadbandUnDocked => "HeadbandUnDocked"
  | AlarmOff => "AlarmOff"
  | AlarmSnooze => "AlarmSnooze"
  | AlarmPlay => "AlarmPlay"
  | NightEnd => "NightEnd"
  | NewHeadband => "NewHeadband"
  | EventType_Invalid b => invalid_string b
  end.

(** [impl fmt::Display for FrequencyBins] *)
Definition FrequencyBins_fmt (f : FrequencyBin) : string :=
  match f with
  | Delta => "Delta"
  | Theta => "Theta"
  | Alpha => "Alpha"
  | BetaMid => "BetaMid"
  | BetaHigh => "BetaHigh"
  | BetaLow => "BetaLow"
  | Gamma => "Gamma"
  | FrequencyBins_Invalid b => invalid_string b
  end.

(** [impl fmt::Display for SleepStages] *)
Definition SleepStages_fmt (st : SleepStages) : string :=
  match st with
  | Undefined => "Undefined"
  | Awake => "Awake"
  | Rem => "Rem"
  | Light => "Light"
  | Deep => "Deep"
  | SleepStages_Invalid b => invalid_string b
  end.

(** The 256 values of a [u8]. *)
Definition all_bytes : list Z := map Z.of_nat (seq 0 256).

(** ** [filter60hz] *)

(** The convolution of [filter60hz] over an abstract scalar type: [zero],
    [add] and [mul] stand for the [f64] literal [0.0], [+] and [*], and
    [filter] for the array of 51 [f64] coefficients.  Indices are [usize]
    values, as [Z]; [p - 1] underflows when [a] is empty (a panic with
    overflow checks, a wrap to [usize::MAX] without); an index out of
    bounds panics.  [None] is a panic. *)
Section Filter60hz.
Variable R : Type.
Variables (zero : R) (add mul : R -> R -> R).

Definition usize_max : Z := 2 ^ 64 - 1.

Definition usize_sub (checked : bool) (a b : Z) : option Z :=
  if a <? b then (if checked then None else Some ((a - b) mod 2 ^ 64))
  else Some (a - b).

(** [lo..=hi], as a list of indices. *)
Definition range_incl (lo hi : Z) : list Z :=
  map (fun j => lo + Z.of_nat j) (seq 0 (Z.to_nat (hi - lo + 1))).

(** [a[i]] *)
Definition index (l : list R) (i : Z) : option R := nth_error l (Z.to_nat i).

(** [c[k] = t] *)
Definition set_index (l : list R) (k : Z) (t : R) : option (list R) :=
  if (0 <=? k) && (k <? Z.of_nat (length l))
  then Some (firstn (Z.to_nat k) l ++ t :: skipn (S (Z.to_nat k)) l)
  else None.

(** [for i in lower..=upper { t += a[i] * filter[k - i]; }] *)
Definition inner_sum (checked : bool) (filter a : list R) (k lower upper : Z) : option R :=
  fold_left
    (fun acc i =>
       match acc with
       | None => None
       | Some t =>
           match index a i, usize_sub checked k i with
           | Some x, Some ki =>
               match index filter ki with
               | Some y => Some (add t (mul x y))
               | None => None
               end
           | _, _ => None
           end
       end)
    (range_incl lower upper) (Some zero).

Definition filter60hz (checked : bool) (filter a : list R) : option (list R) :=
  let p := Z.of_nat (length a) in
  let q := Z.of_nat (length filter) in
  let n := p + q - 1 in
  fold_left
    (fun oc k =>
       match oc with
       | None => None
       | Some c =>
           let lower := Z.max (k - (q - 1)) 0 in
           match usize_sub checked p 1 with
           | None => None
           | Some pm1 =>
               let upper := Z.min k pm1 in
               match inner_sum checked filter a k lower upper with
               | None => None
               | Some t => set_index c k t
               end
           end
       end)
    (range_incl 0 (n - 1)) (Some (repeat zero (Z.to_nat n))).

(** The [k]-th term of the full linear convolution of [a] and [coeffs]:
    the sum, in increasing [i], of [a[i] * coeffs[k - i]] over the pairs of
    valid indices. *)
Definition conv_at (coeffs a : list R) (k : nat) : R :=
  fold_left (fun t i => add t (mul (nth i a zero) (nth (k - i) coeffs zero)))
            (List.filter (fun i => Nat.ltb i (length a) && Nat.ltb (k - i) (length coeffs))
                         (seq 0 (S k)))
            zero.

End Filter60hz.

(** The coefficients of [filter60hz] as written, in units of [0.0001]. *)
Definition filter60hz_coeffs_e4 : list Z :=
  [56; 190; 113; -106; 29; 41; -82; 89; -62; 6; 66;
   -129; 157; -127; 35; 102; -244; 336; -323; 168; 136;
   -555; 1020; -1446; 1743; 8150; 1743; -1446; 1020; -555; 136; 168;
   -323; 336; -244; 102; 35; -127; 157; -129; 66; 6;
   -62; 89; -82; 41; 29; -106; 113; 190; 56].

(** ** Integer helpers *)

Definition u16_from_le_bytes (lo hi : Z) : Z := lo + 256 * hi.

Definition u32_from_le_bytes (b0 b1 b2 b3 : Z) : Z :=
  b0 + 256 * b1 + 65536 * b2 + 16777216 * b3.

(** [!x] on a [u16]. *)
Definition u16_not (x : Z) : Z := Z.land (Z.lnot x) 0xFFFF.

Definition u8_wrapping_add (a b : Z) : Z := (a + b) mod 256.

Definition u32_saturating_sub (a b : Z) : Z := Z.max (a - b) 0.
Definition u32_saturating_add (a b : Z) : Z := Z.min (a + b) (2 ^ 32 - 1).

(** The timestamp reconstruction of the [DataType::ZeoTimestamp] branch:
    [zeo_time] against the frame's [tt_lb]. *)
Definition reconcile (zeo_time tt_lb : Z) : Z :=
  if Z.land zeo_time 0xFF =? tt_lb then zeo_time
  else if Z.land (u32_saturating_sub zeo_time 1) 0xFF =? tt_lb
  then u32_saturating_sub zeo_time 1
  else if Z.land (u32_saturating_add zeo_time 1) 0xFF =? tt_lb
  then u32_saturating_add zeo_time 1
  else zeo_time.

(** The little-endian [u32] popped from the front of [datavec]: three
    [pop_front().unwrap()] (a panic, [None], when absent) and a fourth
    [pop_front().unwrap_or(0)]. *)
Definition pop_u32_le (datavec : list Z) : option (Z * list Z) :=
  match datavec with
  | b0 :: b1 :: b2 :: rest =>
      match rest with
      | [] => Some (u32_from_le_bytes b0 b1 b2 0, [])
      | b3 :: rest' => Some (u32_from_le_bytes b0 b1 b2 b3, rest')
      end
  | _ => None
  end.

(** The marker scan ['inner: loop]: a two-byte window [start], shifted by
    [start.swap(0, 1); start[1] = ring.pop_front().unwrap()], until it
    equals [b"A4"].  [None] is the panic of [unwrap] on an empty ring;
    [Some r] is the ring left after the marker. *)
Fixpoint find_marker (s0 s1 : Z) (r : list Z) : option (list Z) :=
  match r with
  | [] => None
  | b :: r' =>
      let s0' := s1 in
      let s1' := b in
      if (s0' =? 0x41) && (s1' =? 0x34) then Some r'
      else find_marker s0' s1' r'
  end.

(** Whether a byte list contains the marker ["A4"] as two adjacent bytes. *)
Fixpoint has_marker (l : list Z) : bool :=
  match l with
  | a :: ((b :: _) as l') => ((a =? 0x41) && (b =? 0x34)) || has_marker l'
  | _ => false
  end.

(** ** The state of a decode call and its monad *)

(** [prev_seqnum] and [ring] are the two [&mut] parameters of [parse];
    [lost_log] records, in order, the counts [N] printed by
    ["we've lost {N} sequence(s)!"]. *)
Record state := mkState {
  prev_seqnum : option Z;
  ring : list Z;
  lost_log : list Z }.

Definition set_ring (r : list Z) (s : state) : state :=
  mkState (prev_seqnum s) r (lost_log s).
Definition set_prev (p : option Z) (s : state) : state :=
  mkState p (ring s) (lost_log s).
Definition add_lost (n : Z) (s : state) : state :=
  mkState (prev_seqnum s) (ring s) (lost_log s ++ [n]).

(** The return value of [parse]:
    [Result<Option<(u32, u16, u32, DataType, VecDeque<u8>)>, &'static str>]. *)
Record packet := mkPacket {
  pk_time_full : Z;
  pk_subsec : Z;
  pk_version : Z;
  pk_datatype : DataType;
  pk_data : list Z }.

Inductive parse_result :=
| Res_Ok (p : option packet)
| Res_Err (msg : string).

(** One step of the body: it continues with a value, leaves [parse] through
    a [return], or panics. *)
Inductive step (A : Type) :=
| Cont (a : A) (s : state)
| Exit (r : parse_result) (s : state)
| Crash.
Arguments Cont {A}.
Arguments Exit {A}.
Arguments Crash {A}.

Definition M (A : Type) := state -> step A.

Definition ret {A} (a : A) : M A := fun s => Cont a s.
Definition bind {A B} (m : M A) (k : A -> M B) : M B :=
  fun s => match m s with
           | Cont a s' => k a s'
           | Exit r s' => Exit r s'
           | Crash => Crash
           end.

Notation "x <- m ;; k" := (bind m (fun x => k))
  (at level 61, m at next level, right associativity).
Notation "m ;;; k" := (bind m (fun _ => k))
  (at level 61, right associativity).

Definition panic {A} : M A := fun _ => Crash.
Definition early_return {A} (r : parse_result) : M A := fun s => Exit r s.
Definition modify (f : state -> state) : M unit := fun s => Cont tt (f s).
Definition gets {A} (f : state -> A) : M A := fun s => Cont (f s) s.
Definition unwrap {A} (o : option A) : M A :=
  match o with Some a => ret a | None => panic end.

(** [ring.len()] *)
Definition ring_len : M Z := gets (fun s => Z.of_nat (length (ring s))).

(** [ring.pop_front()] *)
Definition pop_front : M (option Z) :=
  fun s => match ring s with
           | [] => Cont None s
           | b :: r => Cont (Some b) (set_ring r s)
           end.

(** [ring.pop_front().unwrap()] *)
Definition pop_front_unwrap : M Z := o <- pop_front ;; unwrap o.

(** [ring.push_front(b)] *)
Definition push_front (b : Z) : M unit :=
  modify (fun s => set_ring (b :: ring s) s).

(** [a - b] on [u8] / [u16] ([w] bits): panics on underflow when overflow
    checks are enabled, wraps otherwise. *)
Definition checked_sub (checked : bool) (w : Z) (a b : Z) : M Z :=
  if checked && (a <? b) then panic else ret ((a - b) mod 2 ^ w).

(** ** The decoder [parse] ([src/src/main.rs]) *)

(** The locals of [parse] that reach its final [Ok(Some(..))]. *)
Record locals := mkLocals {
  tt_ss : Z;
  datatype : DataType;
  datavec : list Z;
  zeo_version : Z;
  zeo_time_full : Z }.

(** Their values at the start of every call: [tt_ss = 0],
    [datatype = DataType::Invalid(255)], an empty [datavec],
    [zeo_version = 0], [zeo_time_full = 0]. *)
Definition init_locals : locals := mkLocals 0 (DataType_Invalid 255) [] 0 0.

(** 1. The marker scan on the ring. *)
Definition scan_marker : M unit :=
  fun s => match find_marker 0 0 (ring s) with
           | Some r => Cont tt (set_ring r s)
           | None => Crash
           end.

(** 7. [for _ in 0..datalen]: push each popped byte, or warn when the ring
    is empty. *)
Fixpoint read_data (n : nat) (dv : list Z) : M (list Z) :=
  match n with
  | O => ret dv
  | S n' =>
      ob <- pop_front ;;
      match ob with
      | Some b => read_data n' (dv ++ [b])
      | None => read_data n' dv
      end
  end.

Definition sum_bytes (l : list Z) : Z := fold_right Z.add 0 l.

(** 5. The sequence tracker. *)
Definition track_seqnum (checked : bool) (seqnum : Z) : M unit :=
  p <- gets prev_seqnum ;;
  (match p with
   | Some pseq =>
       let prev_seq1 := u8_wrapping_add pseq 1 in
       if negb (prev_seq1 =? seqnum) then
         n <- checked_sub checked 8 seqnum prev_seq1 ;;
         modify (add_lost n)
       else ret tt
   | None => ret tt
   end) ;;;
  modify (set_prev (Some seqnum)).

(** Steps 8 (data type), 9 (time-sync) and 10 (version): the branches
    taken once the checksum holds. *)
Definition classify_payload (l : locals) (tt_lb tt_ss : Z) (datatype : DataType)
    (datavec : list Z) : M locals :=
  match datatype with
  | DataType_Invalid _ => early_return (Res_Err "Bad datatype: {{b:02X}}"%string)
  | ZeoTimestamp =>
      r <- unwrap (pop_u32_le datavec) ;;
      let (zeo_time, datavec') := r in
      ret (mkLocals tt_ss datatype datavec' (zeo_version l)
                    (reconcile zeo_time tt_lb))
  | Version =>
      r <- unwrap (pop_u32_le datavec) ;;
      let (zeo_version', datavec') := r in
      ret (mkLocals tt_ss datatype datavec' zeo_version' (zeo_time_full l))
  | _ => ret (mkLocals tt_ss datatype datavec (zeo_version l) (zeo_time_full l))
  end.

(** Steps 1 to 8 (checksum) of one iteration: it yields
    [(tt_lb, tt_ss, datatype, datavec)]. *)
Definition read_frame (checked : bool) : M (Z * Z * DataType * list Z) :=
  scan_marker ;;;
  len <- ring_len ;;
  if len <? 14 then
    push_front 0x34 ;;; push_front 0x41 ;;; early_return (Res_Ok None)
  else
  cksum <- pop_front_unwrap ;;
  dl0 <- pop_front_unwrap ;; dl1 <- pop_front_unwrap ;;
  let dl := u16_from_le_bytes dl0 dl1 in
  inv0 <- pop_front_unwrap ;; inv1 <- pop_front_unwrap ;;
  let inv_dl := u16_from_le_bytes inv0 inv1 in
  if negb (dl =? u16_not inv_dl) then
    early_return (Res_Err "Invalid message length."%string)
  else
  tt_lb <- pop_front_unwrap ;;
  ss0 <- pop_front_unwrap ;; ss1 <- pop_front_unwrap ;;
  let tt_ss := u16_from_le_bytes ss0 ss1 in
  seqnum <- pop_front_unwrap ;;
  track_seqnum checked seqnum ;;;
  dtype <- pop_front_unwrap ;;
  let datatype := DataType_from dtype in
  datalen <- checked_sub checked 16 dl 1 ;;
  datavec <- read_data (Z.to_nat datalen) [] ;;
  if negb ((dtype + sum_bytes datavec) mod 256 =? cksum) then
    early_return (Res_Err "Invalid checksum."%string)
  else ret (tt_lb, tt_ss, datatype, datavec).

(** One iteration of [while ring.len() > 15 { .. }]. *)
Definition parse_body (checked : bool) (l : locals) : M locals :=
  fr <- read_frame checked ;;
  let '(tt_lb, tt_ss, datatype, datavec) := fr in
  classify_payload l tt_lb tt_ss datatype datavec.

(** The [while] loop, run on a fuel bound; [parse] gives it one unit more
    than the ring's length, and every iteration that goes on pops at least
    twelve bytes, so the bound is never reached ([parse_loop_fuel]). *)
Fixpoint parse_loop (checked : bool) (fuel : nat) (l : locals) : M locals :=
  match fuel with
  | O => panic
  | S fuel' =>
      len <- ring_len ;;
      if 15 <? len then
        l' <- parse_body checked l ;;
        parse_loop checked fuel' l'
      else ret l
  end.

(** What a call of [parse] does: it returns a result together with the
    mutated [prev_seqnum] and ring, or it panics. *)
Inductive outcome :=
| Returned (r : parse_result) (s : state)
| Panicked.

Definition parse (checked : bool) (s : state) : outcome :=
  match parse_loop checked (S (length (ring s))) init_locals s with
  | Cont l s' =>
      Returned (Res_Ok (Some (mkPacket (zeo_time_full l) (tt_ss l)
                                       (zeo_version l) (datatype l)
                                       (datavec l)))) s'
  | Exit r s' => Returned r s'
  | Crash => Panicked
  end.

(** ** Building frames *)

(** The bytes of a frame [A 4 c ll LL T tt s i d..] with length
    [dl = 1 + |payload|], its inverse, and the checksum of the wire
    format. *)
Definition mk_frame (tt_lb subsec seqnum id : Z) (payload : list Z) : list Z :=
  let dl := 1 + Z.of_nat (length payload) in
  let inv := u16_not dl in
  [0x41; 0x34; (id + sum_bytes payload) mod 256;
   dl mod 256; dl / 256; inv mod 256; inv / 256;
   tt_lb; subsec mod 256; subsec / 256; seqnum; id] ++ payload.

Definition fresh (r : list Z) : state := mkState None r [].

(** The count that [track_seqnum] prints for a new [seqnum], if any. *)
Definition lost_entry (p : option Z) (seqnum : Z) : list Z :=
  match p with
  | Some pseq =>
      let prev_seq1 := u8_wrapping_add pseq 1 in
      if prev_seq1 =? seqnum then [] else [(seqnum - prev_seq1) mod 256]
  | None => []
  end.

(** Whether [seqnum - prev_seq1] in [track_seqnum] is free of [u8]
    underflow, or overflow is not checked. *)
Definition seq_safe (checked : bool) (p : option Z) (seqnum : Z) : bool :=
  match p with
  | Some pseq => negb checked || (u8_wrapping_add pseq 1 <=? seqnum)
  | None => true
  end.

Definition is_byte (b : Z) : Prop := 0 <= b < 256.

(** A computation that never leaves the ring longer than it found it. *)
Definition shrinks {A} (m : M A) : Prop :=
  forall s a s', m s = Cont a s' -> (length (ring s') <= length (ring s))%nat.

(** [s'] only lost bytes from the front of the ring of [s] and only gained
    entries at the end of its lost-sequence log. *)
Definition keeps (s s' : state) : Prop :=
  (exists p, ring s = p ++ ring s') /\ (exists g, lost_log s' = lost_log s ++ g).

(** A computation that, whether it goes on or returns, only does that. *)
Definition consumes {A} (m : M A) : Prop :=
  forall s, match m s with
            | Cont _ s' | Exit _ s' => keeps s s'
            | Crash => True
            end.

(** ** Lemmas on the building blocks *)

Lemma bind_Cont {A B} (m : M A) (k : A -> M B) s a s' :
  m s = Cont a s' -> bind m k s = k a s'.
Proof. unfold bind. intros ->. reflexivity. Qed.

Lemma bind_Crash {A B} (m : M A) (k : A -> M B) s :
  m s = Crash -> bind m k s = Crash.
Proof. unfold bind. intros ->. reflexivity. Qed.

Lemma bind_Cont_inv {A B} (m : M A) (k : A -> M B) s b s' :
  bind m k s = Cont b s' -> exists a s1, m s = Cont a s1 /\ k a s1 = Cont b s'.
Proof.
  unfold bind. destruct (m s) as [a s1|r s1|]; intros H; try discriminate.
  eauto.
Qed.

Lemma has_marker_cons_not_A (x : Z) l :
  x <> 0x41 -> has_marker (x :: l) = has_marker l.
Proof.
  intros Hx. destruct l as [|b l]; [reflexivity|].
  cbn [has_marker]. apply Z.eqb_neq in Hx. rewrite Hx. reflexivity.
Qed.

Lemma find_marker_found pre : forall s0 s1 rest,
  has_marker (s1 :: pre ++ [0x41]) = false ->
  find_marker s0 s1 (pre ++ 0x41 :: 0x34 :: rest) = Some rest.
Proof.
  induction pre as [|a pre IH]; intros s0 s1 rest H; cbn.
  - destruct (s1 =? 0x41); reflexivity.
  - cbn [app has_marker] in H. apply orb_false_iff in H as [H1 H2].
    rewrite H1. apply IH. exact H2.
Qed.

Lemma find_marker_none l : forall s0 s1,
  has_marker (s1 :: l) = false -> find_marker s0 s1 l = None.
Proof.
  induction l as [|a l IH]; intros s0 s1 H; cbn; [reflexivity|].
  cbn [has_marker] in H. apply orb_false_iff in H as [H1 H2].
  rewrite H1. apply IH. exact H2.
Qed.

Lemma scan_marker_found s pre rest :
  ring s = pre ++ 0x41 :: 0x34 :: rest ->
  has_marker (pre ++ [0x41]) = false ->
  scan_marker s = Cont tt (set_ring rest s).
Proof.
  intros Hr Hm. unfold scan_marker. rewrite Hr, find_marker_found; [reflexivity|].
  rewrite has_marker_cons_not_A by lia. exact Hm.
Qed.

Lemma scan_marker_none s :
  has_marker (ring s) = false -> scan_marker s = Crash.
Proof.
  intros Hm. unfold scan_marker. rewrite find_marker_none; [reflexivity|].
  rewrite has_marker_cons_not_A by lia. exact Hm.
Qed.

Lemma parse_loop_enter checked fuel l s :
  (15 < length (ring s))%nat ->
  parse_loop checked (S fuel) l s =
  bind (parse_body checked l) (parse_loop checked fuel) s.
Proof.
  intros H. cbn [parse_loop]. unfold bind at 1, ring_len, gets.
  replace (15 <? Z.of_nat (length (ring s))) with true by (symmetry; apply Z.ltb_lt; lia).
  reflexivity.
Qed.

Lemma parse_loop_leave checked fuel l s :
  (length (ring s) <= 15)%nat ->
  parse_loop checked (S fuel) l s = Cont l s.
Proof.
  intros H. cbn [parse_loop]. unfold bind at 1, ring_len, gets.
  replace (15 <? Z.of_nat (length (ring s))) with false by (symmetry; apply Z.ltb_ge; lia).
  reflexivity.
Qed.

(** ** Claims *)

(** C10: [EventType::from] maps [0x8F] to [HeadbandUnDocked] and [0x0F] to
    [Invalid(0x0F)], although the declared discriminant of
    [HeadbandUnDocked] is [0x0F]; every other recognized variant is the
    image of its declared discriminant. *)
Theorem C10_event_type_from :
  EventType_from 0x8F = HeadbandUnDocked /\
  EventType_from 0x0F = EventType_Invalid 0x0F /\
  EventType_discriminant HeadbandUnDocked = 0x0F /\
  (forall e, e <> HeadbandUnDocked -> (forall b, e <> EventType_Invalid b) ->
             EventType_from (EventType_discriminant e) = e).
Proof.
  split; [reflexivity|]. split; [reflexivity|]. split; [reflexivity|].
  intros e H1 H2. destruct e; try reflexivity.
  - contradiction.
  - exfalso. exact (H2 b eq_refl).
Qed.

(** C9: the [u32] extraction of the time-sync and version branches pops its
    first three bytes with [unwrap] and defaults only the fourth to [0]: it
    succeeds exactly on payloads of at least three bytes, and a validated
    time-sync frame, and a validated version frame, of declared length 3
    (two payload bytes, followed by two more bytes in the ring) make
    [parse] panic. *)
Theorem C9_u32_extraction_partial :
  (forall dv, pop_u32_le dv = None <-> (length dv < 3)%nat) /\
  (forall b0 b1 b2,
      pop_u32_le [b0; b1; b2] = Some (u32_from_le_bytes b0 b1 b2 0, [])) /\
  (forall checked,
      parse checked (fresh (mk_frame 0x03 1 5 0x8A [0x03; 0x10] ++ [0; 0]))
      = Panicked) /\
  (forall checked,
      parse checked (fresh (mk_frame 0x03 1 5 0x03 [0x03; 0x00] ++ [0; 0]))
      = Panicked).
Proof.
  split; [|split; [reflexivity|split]].
  - intros dv. destruct dv as [|b0 [|b1 [|b2 r]]]; cbn.
    + split; [lia|reflexivity].
    + split; [lia|reflexivity].
    + split; [lia|reflexivity].
    + destruct r; split; intros H; discriminate || lia.
  - intros []; reflexivity.
  - intros []; reflexivity.
Qed.

(** C2: a ring of at least 16 bytes without the marker ["A4"]: the marker
    scan exhausts the ring and its [pop_front().unwrap()] panics; [parse]
    does not return the awaiting-more-data [Ok(None)]. *)
Theorem C2_scan_exhaustion_panics checked s :
  (16 <= length (ring s))%nat ->
  has_marker (ring s) = false ->
  parse checked s = Panicked.
Proof.
  intros Hlen Hm. unfold parse.
  rewrite parse_loop_enter by lia.
  unfold parse_body. rewrite bind_Crash; [reflexivity|].
  apply bind_Crash. unfold read_frame. apply bind_Crash. apply scan_marker_none. exact Hm.
Qed.

Lemma C2_scan_exhaustion_panics_witness :
  (16 <= length (ring (fresh (repeat (0:Z) 16))))%nat /\
  has_marker (ring (fresh (repeat (0:Z) 16))) = false /\
  parse true (fresh (repeat (0:Z) 16)) = Panicked.
Proof.
  split; [cbn; lia|]. split; [reflexivity|].
  apply C2_scan_exhaustion_panics; [cbn; lia | reflexivity].
Defined.

Lemma bind_Exit {A B} (m : M A) (k : A -> M B) s r s' :
  m s = Exit r s' -> bind m k s = Exit r s'.
Proof. unfold bind. intros ->. reflexivity. Qed.

(** C4: at any iteration of the loop, when the marker is found with fewer
    than 14 bytes after it, the bytes before the marker are dropped, the
    two marker bytes are pushed back so that the ring starts again with
    [0x41 0x34], and [parse] returns [Ok(None)] (awaiting more data). *)
Theorem C4_marker_restored checked fuel l s pre rest :
  ring s = pre ++ 0x41 :: 0x34 :: rest ->
  has_marker (pre ++ [0x41]) = false ->
  (15 < length (ring s))%nat ->
  (length rest < 14)%nat ->
  parse_loop checked (S fuel) l s =
  Exit (Res_Ok None) (set_ring (0x41 :: 0x34 :: rest) s).
Proof.
  intros Hr Hm Hlen Hrest.
  rewrite parse_loop_enter by exact Hlen. apply bind_Exit.
  unfold parse_body. apply bind_Exit. unfold read_frame.
  rewrite (bind_Cont _ _ _ _ _ (scan_marker_found s pre rest Hr Hm)).
  cbv [bind ring_len gets set_ring ring].
  replace (Z.of_nat (length rest) <? 14) with true by (symmetry; apply Z.ltb_lt; lia).
  reflexivity.
Qed.

Lemma C4_marker_restored_witness :
  let s := fresh [0x00; 0x00; 0x41; 0x34; 0xEA; 0x05; 0x00; 0xFA; 0xFF;
                  0x1F; 0x06; 0x00; 0x84; 0x8A; 0x1F; 0x2B; 0xB3] in
  parse_loop true 17 init_locals s =
  Exit (Res_Ok None)
       (set_ring [0x41; 0x34; 0xEA; 0x05; 0x00; 0xFA; 0xFF;
                  0x1F; 0x06; 0x00; 0x84; 0x8A; 0x1F; 0x2B; 0xB3] s).
Proof.
  intros s. apply (C4_marker_restored true 16 init_locals s [0x00; 0x00]);
    [reflexivity | reflexivity | cbn; lia | cbn; lia].
Defined.

(** C5: at any iteration of the loop, for a frame (at least 14 bytes after
    the marker) whose length [dl] is not [!inv_dl], [parse] returns the
    length-mismatch error ["Invalid message length."] and the ring holds
    exactly the bytes after the two length fields: only the bytes before
    the marker, the marker, the checksum byte and the four length bytes
    were consumed; the sequence state is untouched. *)
Theorem C5_length_mismatch checked fuel l s pre c d0 d1 i0 i1 rest :
  ring s = pre ++ 0x41 :: 0x34 :: c :: d0 :: d1 :: i0 :: i1 :: rest ->
  has_marker (pre ++ [0x41]) = false ->
  (9 <= length rest)%nat ->
  u16_from_le_bytes d0 d1 <> u16_not (u16_from_le_bytes i0 i1) ->
  parse_loop checked (S fuel) l s =
  Exit (Res_Err "Invalid message length.") (set_ring rest s).
Proof.
  intros Hr Hm Hrest Hne.
  rewrite parse_loop_enter by (rewrite Hr, length_app; cbn; lia).
  apply bind_Exit.
  unfold parse_body. apply bind_Exit. unfold read_frame.
  rewrite (bind_Cont _ _ _ _ _ (scan_marker_found s pre _ Hr Hm)).
  cbv [bind ring_len gets set_ring ring].
  replace (Z.of_nat (length (c :: d0 :: d1 :: i0 :: i1 :: rest)) <? 14) with false
    by (symmetry; apply Z.ltb_ge; cbn [length]; lia).
  cbv [pop_front_unwrap pop_front unwrap ret bind set_ring ring].
  apply Z.eqb_neq in Hne. rewrite Hne. reflexivity.
Qed.

Lemma C5_length_mismatch_witness :
  let s := fresh [0x41; 0x34; 0x00; 0x05; 0x00; 0xFA; 0xFE;
                  0x1F; 0x06; 0x00; 0x84; 0x8A; 1; 2; 3; 4] in
  parse_loop false 17 init_locals s =
  Exit (Res_Err "Invalid message length.")
       (set_ring [0x1F; 0x06; 0x00; 0x84; 0x8A; 1; 2; 3; 4] s).
Proof.
  intros s. apply (C5_length_mismatch false 16 init_locals s [] 0x00 0x05 0x00 0xFA 0xFE);
    [reflexivity | reflexivity | cbn; lia | vm_compute; discriminate].
Defined.

(** ** Decoding a well-formed frame *)

Lemma u16_not_small x : 0 <= x < 65536 -> u16_not x = 65535 - x.
Proof.
  intros Hx. unfold u16_not.
  change 0xFFFF with (Z.ones 16). rewrite Z.land_ones by lia.
  rewrite Z.lnot_eq_pred_opp. change (Z.ones 16) with 65535. change (2 ^ 16) with 65536.
  symmetry. apply Z.mod_unique with (-1); lia.
Qed.

Lemma u16_le_split x : 0 <= x < 65536 -> u16_from_le_bytes (x mod 256) (x / 256) = x.
Proof.
  intros Hx. unfold u16_from_le_bytes.
  pose proof (Z.div_mod x 256 ltac:(lia)). lia.
Qed.

Lemma read_data_full l1 : forall n dv s l2,
  ring s = l1 ++ l2 -> length l1 = n ->
  read_data n dv s = Cont (dv ++ l1) (set_ring l2 s).
Proof.
  induction l1 as [|b l1 IH]; intros n dv s l2 Hr Hn; subst n; cbn [length read_data].
  - rewrite app_nil_r. destruct s as [p r g]; cbn in Hr; subst r. reflexivity.
  - unfold bind at 1, pop_front. rewrite Hr. cbn [app].
    rewrite (IH _ (dv ++ [b]) _ l2); [| reflexivity | reflexivity].
    rewrite <- app_assoc. reflexivity.
Qed.

Lemma read_data_short n : forall l1 dv s,
  ring s = l1 -> (length l1 <= n)%nat ->
  read_data n dv s = Cont (dv ++ l1) (set_ring [] s).
Proof.
  induction n as [|n IH]; intros l1 dv s Hr Hn; cbn [read_data].
  - destruct l1; [|cbn in Hn; lia].
    destruct s as [p r g]; cbn in Hr; subst r. rewrite app_nil_r. reflexivity.
  - unfold bind at 1, pop_front. rewrite Hr. destruct l1 as [|b l1].
    + rewrite (IH [] dv s); [ | exact Hr | cbn; lia]. reflexivity.
    + rewrite (IH l1 (dv ++ [b])); [ | reflexivity | cbn in Hn; lia].
      rewrite <- app_assoc. reflexivity.
Qed.

Lemma track_seqnum_safe checked seqnum s :
  seq_safe checked (prev_seqnum s) seqnum = true ->
  track_seqnum checked seqnum s =
  Cont tt (mkState (Some seqnum) (ring s)
                   (lost_log s ++ lost_entry (prev_seqnum s) seqnum)).
Proof.
  destruct s as [p r g]. cbn [prev_seqnum ring lost_log]. intros Hs.
  unfold track_seqnum, bind, gets, modify, set_prev, add_lost, ret. cbn.
  destruct p as [pseq|]; cbn [lost_entry].
  - destruct (u8_wrapping_add pseq 1 =? seqnum); cbn.
    + rewrite app_nil_r. reflexivity.
    + unfold checked_sub. cbn in Hs.
      destruct checked; cbn in Hs |- *.
      * apply Z.leb_le in Hs. replace (seqnum <? u8_wrapping_add pseq 1) with false
          by (symmetry; apply Z.ltb_ge; lia). reflexivity.
      * reflexivity.
  - rewrite app_nil_r. reflexivity.
Qed.

(** A well-formed frame, after bytes without the marker, is read whole:
    [read_frame] yields its time-low byte, sub-second counter, data type
    and payload, and leaves [trail] in the ring. *)
Lemma read_frame_valid checked s pre tl subsec sq id payload trail :
  ring s = pre ++ mk_frame tl subsec sq id payload ++ trail ->
  has_marker (pre ++ [0x41]) = false ->
  0 <= subsec < 65536 ->
  Z.of_nat (length payload) < 65535 ->
  (4 <= length payload + length trail)%nat ->
  seq_safe checked (prev_seqnum s) sq = true ->
  read_frame checked s =
  Cont (tl, subsec, DataType_from id, payload)
       (mkState (Some sq) trail (lost_log s ++ lost_entry (prev_seqnum s) sq)).
Proof.
  intros Hr Hm Hss Hdl Hlen Hsafe.
  set (dl := 1 + Z.of_nat (length payload)).
  assert (Hdl' : 0 <= dl < 65536) by (unfold dl; lia).
  assert (Hr' : ring s = pre ++ 0x41 :: 0x34 ::
     ((id + sum_bytes payload) mod 256 :: dl mod 256 :: dl / 256 ::
      u16_not dl mod 256 :: u16_not dl / 256 :: tl :: subsec mod 256 ::
      subsec / 256 :: sq :: id :: payload ++ trail)).
  { rewrite Hr. unfold mk_frame. fold dl. cbn [app]. reflexivity. }
  unfold read_frame.
  rewrite (bind_Cont _ _ _ _ _ (scan_marker_found s pre _ Hr' Hm)).
  cbv [bind ring_len gets set_ring ring].
  replace (Z.of_nat (length ((id + sum_bytes payload) mod 256 :: dl mod 256 :: dl / 256 ::
      u16_not dl mod 256 :: u16_not dl / 256 :: tl :: subsec mod 256 ::
      subsec / 256 :: sq :: id :: payload ++ trail)) <? 14) with false
    by (symmetry; apply Z.ltb_ge; cbn [length]; rewrite length_app; lia).
  cbv [pop_front_unwrap pop_front unwrap ret set_ring bind ring prev_seqnum lost_log].
  rewrite (u16_le_split dl) by lia.
  rewrite (u16_le_split (u16_not dl)) by (rewrite u16_not_small; lia).
  rewrite (u16_not_small dl), (u16_not_small (65535 - dl)) by lia.
  replace (dl =? 65535 - (65535 - dl)) with true by (symmetry; apply Z.eqb_eq; lia).
  cbn [negb]. destruct s as [p r g]. cbn [prev_seqnum ring lost_log] in *.
  cbv [pop_front_unwrap pop_front unwrap ret set_ring bind ring prev_seqnum lost_log].
  rewrite track_seqnum_safe by exact Hsafe.
  cbv [pop_front_unwrap pop_front unwrap ret set_ring bind ring prev_seqnum lost_log].
  unfold checked_sub.
  replace (checked && (dl <? 1)) with false by (destruct checked; [symmetry; apply Z.ltb_ge; lia | reflexivity]).
  cbv [ret].
  replace (Z.to_nat ((dl - 1) mod 2 ^ 16)) with (length payload)
    by (rewrite Z.mod_small by (change (2 ^ 16) with 65536; lia); unfold dl; rewrite Z.add_simpl_l; symmetry; apply Nat2Z.id).
  rewrite (read_data_full payload (length payload) [] _ trail) by reflexivity.
  cbv [set_ring ring prev_seqnum lost_log app]. rewrite Z.eqb_refl, u16_le_split by exact Hss. reflexivity.
Qed.

Lemma classify_payload_valid l tl ss dt dv s :
  (forall b, dt <> DataType_Invalid b) ->
  ((dt = ZeoTimestamp \/ dt = Version) -> 3 <= length dv)%nat ->
  exists l', classify_payload l tl ss dt dv s = Cont l' s /\
    tt_ss l' = ss /\ datatype l' = dt /\
    datavec l' = match dt with ZeoTimestamp | Version => skipn 4 dv | _ => dv end /\
    (dt <> ZeoTimestamp -> zeo_time_full l' = zeo_time_full l) /\
    (dt <> Version -> zeo_version l' = zeo_version l).
Proof.
  intros Hinv H3.
  destruct dt; try (eexists; split; [reflexivity|]; cbn; intuition congruence).
  - assert (Hv : (3 <= length dv)%nat) by (apply H3; auto).
    destruct dv as [|b0 [|b1 [|b2 [|b3 r]]]]; cbn in Hv; try lia;
      (eexists; split; [reflexivity|]; cbn; intuition congruence).
  - assert (Hv : (3 <= length dv)%nat) by (apply H3; auto).
    destruct dv as [|b0 [|b1 [|b2 [|b3 r]]]]; cbn in Hv; try lia;
      (eexists; split; [reflexivity|]; cbn; intuition congruence).
  - exfalso. exact (Hinv b eq_refl).
Qed.

(** [parse] on a ring holding one well-formed frame: the locals it returns. *)
Lemma parse_one_frame checked s pre tl subsec sq id payload trail :
  ring s = pre ++ mk_frame tl subsec sq id payload ++ trail ->
  has_marker (pre ++ [0x41]) = false ->
  0 <= subsec < 65536 ->
  Z.of_nat (length payload) < 65535 ->
  (4 <= length payload + length trail)%nat ->
  (length trail <= 15)%nat ->
  (forall b, DataType_from id <> DataType_Invalid b) ->
  ((DataType_from id = ZeoTimestamp \/ DataType_from id = Version) ->
   3 <= length payload)%nat ->
  seq_safe checked (prev_seqnum s) sq = true ->
  exists l',
    parse checked s =
    Returned (Res_Ok (Some (mkPacket (zeo_time_full l') (tt_ss l') (zeo_version l')
                                     (datatype l') (datavec l'))))
             (mkState (Some sq) trail (lost_log s ++ lost_entry (prev_seqnum s) sq)) /\
    tt_ss l' = subsec /\ datatype l' = DataType_from id /\
    datavec l' = match DataType_from id with
                 | ZeoTimestamp | Version => skipn 4 payload
                 | _ => payload
                 end /\
    (DataType_from id <> ZeoTimestamp -> zeo_time_full l' = 0) /\
    (DataType_from id <> Version -> zeo_version l' = 0).
Proof.
  intros Hr Hm Hss Hdl Hlen Htrail Hinv H3 Hsafe.
  assert (Hring : (16 <= length (ring s))%nat).
  { rewrite Hr, !length_app. unfold mk_frame. rewrite length_app. cbn [length]. lia. }
  unfold parse.
  rewrite parse_loop_enter by lia.
  destruct (classify_payload_valid init_locals tl subsec (DataType_from id) payload
              (mkState (Some sq) trail (lost_log s ++ lost_entry (prev_seqnum s) sq))
              Hinv H3) as (l' & Hc & Hss' & Hdt & Hdv & Ht & Hv).
  rewrite (bind_Cont _ _ _ l' (mkState (Some sq) trail (lost_log s ++ lost_entry (prev_seqnum s) sq))).
  2:{ unfold parse_body.
      rewrite (bind_Cont _ _ _ _ _ (read_frame_valid checked s pre tl subsec sq id
                                     payload trail Hr Hm Hss Hdl Hlen Hsafe)).
      exact Hc. }
  destruct (length (ring s)) as [|n] eqn:E; [lia|].
  rewrite parse_loop_leave by (cbn; exact Htrail).
  exists l'. split; [reflexivity|]. auto 6.
Qed.

(** C3 (amended): a ring holding bytes without the marker, one well-formed
    frame (length [1 + |payload|] with its inverse, checksum of the wire
    format, recognized data type) and at most 15 trailing bytes, with at
    least 4 bytes after the frame header in all: [parse] returns
    [Ok(Some(..))] with the frame's data type (hence its identifier), its
    sub-second counter and its payload, where the time-sync and version
    frames give their payload without its first four bytes (at least 3 of
    these must be present); the sequence number is not in the returned
    tuple but is the new [prev_seqnum], and the trailing bytes stay in the
    ring.  (The sequence diagnostic must not underflow, see C8.) *)
Theorem C3_valid_frame_decoded checked s pre tl subsec sq id payload trail :
  ring s = pre ++ mk_frame tl subsec sq id payload ++ trail ->
  has_marker (pre ++ [0x41]) = false ->
  0 <= subsec < 65536 ->
  Z.of_nat (length payload) < 65535 ->
  (4 <= length payload + length trail)%nat ->
  (length trail <= 15)%nat ->
  (forall b, DataType_from id <> DataType_Invalid b) ->
  ((DataType_from id = ZeoTimestamp \/ DataType_from id = Version) ->
   3 <= length payload)%nat ->
  seq_safe checked (prev_seqnum s) sq = true ->
  exists pk,
    parse checked s =
    Returned (Res_Ok (Some pk))
             (mkState (Some sq) trail (lost_log s ++ lost_entry (prev_seqnum s) sq)) /\
    pk_datatype pk = DataType_from id /\
    pk_subsec pk = subsec /\
    pk_data pk = match DataType_from id with
                 | ZeoTimestamp | Version => skipn 4 payload
                 | _ => payload
                 end.
Proof.
  intros Hr Hm Hss Hdl Hlen Htrail Hinv H3 Hsafe.
  destruct (parse_one_frame checked s pre tl subsec sq id payload trail
              Hr Hm Hss Hdl Hlen Htrail Hinv H3 Hsafe) as (l' & Hp & Hss' & Hdt & Hdv & _).
  eexists. split; [exact Hp|]. cbn. auto.
Qed.

Lemma C3_valid_frame_decoded_witness :
  exists pk,
    parse true (fresh (mk_frame 0x1F 6 0x84 0x84 [9; 0; 0; 0])) =
    Returned (Res_Ok (Some pk)) (mkState (Some 0x84) [] []) /\
    pk_datatype pk = Sqi /\ pk_subsec pk = 6 /\ pk_data pk = [9; 0; 0; 0].
Proof.
  apply (C3_valid_frame_decoded true (fresh (mk_frame 0x1F 6 0x84 0x84 [9; 0; 0; 0]))
           [] 0x1F 6 0x84 0x84 [9; 0; 0; 0] []);
    try reflexivity; try (cbn; lia); try (intros b; discriminate);
    try (intros [H|H]; discriminate).
Defined.

Lemma u16_not_range x : 0 <= u16_not x < 65536.
Proof.
  unfold u16_not. change 0xFFFF with (Z.ones 16). rewrite Z.land_ones by lia.
  apply Z.mod_pos_bound. lia.
Qed.

(** C6 (amended): at any iteration of the loop, when the ring runs out in
    the middle of the payload (fewer than [dl - 1] bytes, at least 4, after
    the header), the short read is not classified as a truncated payload
    and the ring is not restored: every remaining byte is consumed as the
    payload (only a warning is printed) and the ring is left empty; the
    checksum is then checked on the short payload: on a mismatch [parse]
    returns ["Invalid checksum."], otherwise the short payload goes on to
    the data-type dispatch as if it were complete.  It neither panics nor
    returns the awaiting-more-data [Ok(None)].  (The sequence diagnostic
    must not underflow, see C8.) *)
Theorem C6_truncated_payload checked fuel l s pre c d0 d1 i0 i1 tl ss0 ss1 sq id data :
  ring s = pre ++ 0x41 :: 0x34 :: c :: d0 :: d1 :: i0 :: i1 :: tl :: ss0 :: ss1 ::
           sq :: id :: data ->
  has_marker (pre ++ [0x41]) = false ->
  (4 <= length data)%nat ->
  u16_from_le_bytes d0 d1 = u16_not (u16_from_le_bytes i0 i1) ->
  Z.of_nat (length data) < u16_from_le_bytes d0 d1 - 1 ->
  seq_safe checked (prev_seqnum s) sq = true ->
  let s' := mkState (Some sq) [] (lost_log s ++ lost_entry (prev_seqnum s) sq) in
  let r := parse_loop checked (S (S fuel)) l s in
  r = (if (id + sum_bytes data) mod 256 =? c
       then classify_payload l tl (u16_from_le_bytes ss0 ss1) (DataType_from id) data s'
       else Exit (Res_Err "Invalid checksum.") s') /\
  r <> Crash /\
  (forall s'', r <> Exit (Res_Ok None) s'').
Proof.
  intros Hr Hm Hlen Hdl Hshort Hsafe s' r.
  set (dl := u16_from_le_bytes d0 d1) in *.
  pose proof (u16_not_range (u16_from_le_bytes i0 i1)) as Hrange.
  rewrite <- Hdl in Hrange.
  assert (Hr_eq : r = (if (id + sum_bytes data) mod 256 =? c
       then classify_payload l tl (u16_from_le_bytes ss0 ss1) (DataType_from id) data s'
       else Exit (Res_Err "Invalid checksum."%string) s')).
  { unfold r. rewrite parse_loop_enter by (rewrite Hr, length_app; cbn [length]; lia).
    destruct s as [p rg g]. cbn [prev_seqnum ring lost_log] in *. subst rg.
    cbv [parse_body read_frame bind scan_marker ring].
    rewrite find_marker_found by (rewrite has_marker_cons_not_A by lia; exact Hm).
    cbv [bind ring_len gets set_ring ring].
    replace (Z.of_nat (length (c :: d0 :: d1 :: i0 :: i1 :: tl :: ss0 :: ss1 :: sq ::
                               id :: data)) <? 14) with false
      by (symmetry; apply Z.ltb_ge; cbn [length]; lia).
    cbv [pop_front_unwrap pop_front unwrap ret set_ring bind ring prev_seqnum lost_log].
    fold dl. rewrite <- Hdl, Z.eqb_refl. cbn [negb].
    cbv [pop_front_unwrap pop_front unwrap ret set_ring bind ring prev_seqnum lost_log].
    rewrite track_seqnum_safe by exact Hsafe.
    cbv [pop_front_unwrap pop_front unwrap ret set_ring bind ring prev_seqnum lost_log].
    unfold checked_sub.
    replace (checked && (dl <? 1)) with false
      by (destruct checked; [symmetry; apply Z.ltb_ge; lia | reflexivity]).
    cbv [ret].
    rewrite (read_data_short (Z.to_nat ((dl - 1) mod 2 ^ 16)) data [])
      by (try reflexivity; rewrite Z.mod_small by (change (2 ^ 16) with 65536; lia); lia).
    cbv [set_ring ring prev_seqnum lost_log]. change ([] ++ data) with data.
    unfold s'. cbn [prev_seqnum lost_log].
    destruct ((id + sum_bytes data) mod 256 =? c) eqn:Hck; cbn [negb].
    - destruct (classify_payload l tl (u16_from_le_bytes ss0 ss1) (DataType_from id)
                  data (mkState (Some sq) [] (g ++ lost_entry p sq)))
        as [l' s1| r1 s1 |] eqn:Hc.
      + rewrite parse_loop_leave; [reflexivity|].
        unfold classify_payload in Hc.
        destruct (DataType_from id); cbn in Hc; try discriminate;
          try (injection Hc as <- <-; cbn; lia);
          destruct data as [|b0 [|b1 [|b2 [|b3 rest]]]]; cbn in Hc, Hlen; try lia;
          injection Hc as <- <-; cbn; lia.
      + reflexivity.
      + reflexivity.
    - reflexivity. }
  split; [exact Hr_eq|]. rewrite Hr_eq.
  destruct ((id + sum_bytes data) mod 256 =? c); [|split; [discriminate | intros ? H; discriminate]].
  unfold classify_payload.
  destruct (DataType_from id); cbn;
    try (split; [discriminate | intros ? H; discriminate]);
    destruct data as [|b0 [|b1 [|b2 [|b3 rest]]]]; cbn in Hlen; try lia;
    cbn; split; try discriminate; intros ? H; discriminate.
Qed.

Lemma C6_truncated_payload_witness :
  let s := fresh [0x41; 0x34; 0x00; 0x64; 0x00; 0x9B; 0xFF;
                  0x1F; 0x06; 0x00; 0x84; 0x84; 1; 2; 3; 4] in
  let r := parse_loop true 18 init_locals s in
  r = Exit (Res_Err "Invalid checksum.") (mkState (Some 0x84) [] []) /\
  r <> Crash /\ (forall s'', r <> Exit (Res_Ok None) s'').
Proof.
  intros s r.
  destruct (C6_truncated_payload true 16 init_locals s [] 0x00 0x64 0x00 0x9B 0xFF
              0x1F 0x06 0x00 0x84 0x84 [1; 2; 3; 4])
    as (H1 & H2 & H3); try reflexivity; try (cbn; lia).
  split; [exact H1 | split; [exact H2 | exact H3]].
Defined.

Lemma parse_body_clock checked l s l' s' :
  parse_body checked l s = Cont l' s' ->
  (datatype l' <> ZeoTimestamp -> zeo_time_full l' = zeo_time_full l) /\
  (datatype l' <> Version -> zeo_version l' = zeo_version l).
Proof.
  unfold parse_body. intros H.
  apply bind_Cont_inv in H as ([[[tl ss] dt] dv] & s1 & _ & H).
  unfold classify_payload in H.
  destruct dt; cbn in H; try discriminate;
    try (injection H as <- <-; cbn; intuition congruence);
    destruct (pop_u32_le dv) as [[v r]|]; cbn in H; try discriminate;
    injection H as <- <-; cbn; intuition congruence.
Qed.

(** C7, the part that holds within one call: the clock values are locals
    of [parse]; a loop iteration whose frame is not a time-sync frame
    leaves [zeo_time_full] unchanged, and one whose frame is not a version
    frame leaves [zeo_version] unchanged.  Both are reset to [0] at every
    call, so a call decoding a lone frame of another type returns [0] for
    both, whatever the earlier calls decoded. *)
Theorem C7_clock_state_per_call :
  (forall checked l s l' s',
     parse_body checked l s = Cont l' s' ->
     (datatype l' <> ZeoTimestamp -> zeo_time_full l' = zeo_time_full l) /\
     (datatype l' <> Version -> zeo_version l' = zeo_version l)) /\
  (zeo_time_full init_locals = 0 /\ zeo_version init_locals = 0) /\
  (forall checked s pre tl subsec sq id payload trail,
     ring s = pre ++ mk_frame tl subsec sq id payload ++ trail ->
     has_marker (pre ++ [0x41]) = false ->
     0 <= subsec < 65536 ->
     Z.of_nat (length payload) < 65535 ->
     (4 <= length payload + length trail)%nat ->
     (length trail <= 15)%nat ->
     (forall b, DataType_from id <> DataType_Invalid b) ->
     DataType_from id <> ZeoTimestamp ->
     DataType_from id <> Version ->
     seq_safe checked (prev_seqnum s) sq = true ->
     exists pk s',
       parse checked s = Returned (Res_Ok (Some pk)) s' /\
       pk_time_full pk = 0 /\ pk_version pk = 0).
Proof.
  split; [exact parse_body_clock|]. split; [split; reflexivity|].
  intros checked s pre tl subsec sq id payload trail Hr Hm Hss Hdl Hlen Htrail Hinv
         Hts Hver Hsafe.
  destruct (parse_one_frame checked s pre tl subsec sq id payload trail
              Hr Hm Hss Hdl Hlen Htrail Hinv) as (l' & Hp & _ & _ & _ & Ht & Hv).
  - intros [H|H]; contradiction.
  - exact Hsafe.
  - do 2 eexists. split; [exact Hp|]. cbn. auto.
Qed.

(** C7, at the failing input: two successive calls.  The first decodes a
    time-sync frame of absolute time [0x1003] and returns it; the second,
    on the state left by the first, decodes a signal-quality frame and
    returns the timestamp [0], not the last-known [0x1003]: the clock does
    not persist across calls, while [prev_seqnum] does. *)
Lemma C7_not_across_calls :
  parse true (fresh (mk_frame 0x03 1 5 0x8A [0x03; 0x10; 0x00; 0x00])) =
  Returned (Res_Ok (Some (mkPacket 0x1003 1 0 ZeoTimestamp [])))
           (mkState (Some 5) [] []) /\
  parse true (mkState (Some 5) (mk_frame 0x04 2 6 0x84 [9; 0; 0; 0]) []) =
  Returned (Res_Ok (Some (mkPacket 0 2 0 Sqi [9; 0; 0; 0])))
           (mkState (Some 6) [] []).
Proof. split; vm_compute; reflexivity. Qed.

(** C1, at the failing input: one call on a time-sync frame of absolute
    time [0x1003] with time-low byte [0x03], followed by a signal-quality
    frame with time-low byte [0x04].  The time-sync frame alone reconciles
    to [0x1003]; with the following frame the result is still [0x1003]:
    only time-sync frames are reconciled, each against its own time-low
    byte, so the [+1] branch is not applied to the later frame. *)
Theorem C1_reconcile_only_on_time_sync :
  parse true (fresh (mk_frame 0x03 1 5 0x8A [0x03; 0x10; 0x00; 0x00])) =
  Returned (Res_Ok (Some (mkPacket 0x1003 1 0 ZeoTimestamp [])))
           (mkState (Some 5) [] []) /\
  parse true (fresh (mk_frame 0x03 1 5 0x8A [0x03; 0x10; 0x00; 0x00] ++
                     mk_frame 0x04 2 6 0x84 [9; 0; 0; 0])) =
  Returned (Res_Ok (Some (mkPacket 0x1003 2 0 Sqi [9; 0; 0; 0])))
           (mkState (Some 6) [] []) /\
  reconcile 0x1003 0x04 = 0x1004.
Proof. split; [|split]; vm_compute; reflexivity. Qed.

(** C8, at the failing input: with overflow checks (a debug build), a
    frame whose sequence number [2] is below [prev_seqnum + 1 = 11] makes
    the diagnostic [seqnum - prev_seq1] underflow, and [parse] panics
    instead of reporting the gap; the sequence numbers [5, 6, 8] give the
    gap report [1] only. *)
Theorem C8_seq_gap_underflow_panics :
  parse true (mkState (Some 10) (mk_frame 0x03 1 2 0x84 [9; 0; 0; 0]) []) = Panicked /\
  parse false (mkState (Some 10) (mk_frame 0x03 1 2 0x84 [9; 0; 0; 0]) []) =
  Returned (Res_Ok (Some (mkPacket 0 1 0 Sqi [9; 0; 0; 0])))
           (mkState (Some 2) [] [247]) /\
  parse true (fresh (mk_frame 0x03 1 5 0x84 [9; 0; 0; 0] ++
                     mk_frame 0x03 2 6 0x84 [9; 0; 0; 0] ++
                     mk_frame 0x04 1 8 0x84 [9; 0; 0; 0])) =
  Returned (Res_Ok (Some (mkPacket 0 1 0 Sqi [9; 0; 0; 0])))
           (mkState (Some 8) [] [1]).
Proof. split; [|split]; vm_compute; reflexivity. Qed.

(** ** The fuel of the loop is never exhausted *)

Lemma shrinks_bind {A B} (m : M A) (k : A -> M B) :
  shrinks m -> (forall a, shrinks (k a)) -> shrinks (bind m k).
Proof.
  intros Hm Hk s b s' H. apply bind_Cont_inv in H as (a & s1 & H1 & H2).
  specialize (Hm _ _ _ H1). specialize (Hk _ _ _ _ H2). lia.
Qed.

Lemma shrinks_ret {A} (a : A) : shrinks (ret a).
Proof. intros s b s' H. injection H as _ <-. lia. Qed.

Lemma shrinks_panic {A} : shrinks (@panic A).
Proof. intros s b s' H. discriminate. Qed.

Lemma shrinks_early_return {A} r : shrinks (@early_return A r).
Proof. intros s b s' H. discriminate. Qed.

Lemma shrinks_unwrap {A} (o : option A) : shrinks (unwrap o).
Proof. destruct o; [apply shrinks_ret | apply shrinks_panic]. Qed.

Lemma shrinks_gets {A} (f : state -> A) : shrinks (gets f).
Proof. intros s b s' H. injection H as _ <-. lia. Qed.

Lemma shrinks_pop_front : shrinks pop_front.
Proof.
  intros [p r g] b s' H. unfold pop_front in H. cbn in H.
  destruct r; injection H as _ <-; cbn; lia.
Qed.

Lemma shrinks_modify_ring f :
  (forall s, ring (f s) = ring s) -> shrinks (modify f).
Proof. intros Hf s b s' H. injection H as _ <-. rewrite Hf. lia. Qed.

Lemma shrinks_checked_sub checked w a b : shrinks (checked_sub checked w a b).
Proof.
  unfold checked_sub. destruct (checked && (a <? b));
    [apply shrinks_panic | apply shrinks_ret].
Qed.

Create HintDb shrinks.
#[local] Hint Resolve shrinks_ret shrinks_panic shrinks_early_return shrinks_unwrap
  shrinks_gets shrinks_pop_front shrinks_checked_sub : shrinks.

Lemma shrinks_read_data n : forall dv, shrinks (read_data n dv).
Proof.
  induction n as [|n IH]; intros dv; cbn [read_data]; [apply shrinks_ret|].
  apply shrinks_bind; [apply shrinks_pop_front|]. intros [b|]; apply IH.
Qed.

Lemma shrinks_track_seqnum checked seqnum : shrinks (track_seqnum checked seqnum).
Proof.
  unfold track_seqnum. apply shrinks_bind; [apply shrinks_gets|]. intros [pseq|].
  - apply shrinks_bind; [|intros; apply shrinks_modify_ring; reflexivity].
    destruct (negb (u8_wrapping_add pseq 1 =? seqnum)); [|apply shrinks_ret].
    apply shrinks_bind; [apply shrinks_checked_sub|].
    intros; apply shrinks_modify_ring; reflexivity.
  - apply shrinks_bind; [apply shrinks_ret|].
    intros; apply shrinks_modify_ring; reflexivity.
Qed.

Ltac shrinks_tac :=
  repeat first
    [ progress (auto with shrinks)
    | apply shrinks_bind; [ | intros ]
    | match goal with
      | |- shrinks (if ?b then _ else _) => destruct b
      | |- shrinks (match ?o with _ => _ end) => destruct o
      | |- shrinks (let (_, _) := ?p in _) => destruct p
      | |- shrinks (let _ := _ in _) => cbv zeta
      end
    | apply shrinks_track_seqnum
    | apply shrinks_read_data
    | apply shrinks_modify_ring; reflexivity ].

Lemma shrinks_classify_payload l tl ss dt dv : shrinks (classify_payload l tl ss dt dv).
Proof. unfold classify_payload. shrinks_tac. Qed.

Lemma find_marker_shorter r : forall s0 s1 r',
  find_marker s0 s1 r = Some r' -> (length r' < length r)%nat.
Proof.
  induction r as [|b r IH]; intros s0 s1 r' H; cbn in H; [discriminate|].
  destruct ((s1 =? 0x41) && (b =? 0x34)).
  - injection H as <-. cbn. lia.
  - apply IH in H. cbn. lia.
Qed.

Lemma parse_body_shorter checked l s l' s' :
  parse_body checked l s = Cont l' s' -> (length (ring s') < length (ring s))%nat.
Proof.
  unfold parse_body. intros H.
  apply bind_Cont_inv in H as ([[[tl ss] dt] dv] & s1 & H1 & H2).
  apply shrinks_classify_payload in H2.
  unfold read_frame in H1. apply bind_Cont_inv in H1 as ([] & s0 & H0 & H1).
  assert (Hs0 : (length (ring s0) < length (ring s))%nat).
  { unfold scan_marker in H0. destruct (find_marker 0 0 (ring s)) as [r|] eqn:E;
      [|discriminate]. injection H0 as <-. apply find_marker_shorter in E. exact E. }
  assert (Hrest : shrinks (len <- ring_len ;;
    if len <? 14 then push_front 0x34 ;;; push_front 0x41 ;;; early_return (Res_Ok None)
    else
    cksum <- pop_front_unwrap ;;
    dl0 <- pop_front_unwrap ;; dl1 <- pop_front_unwrap ;;
    let dl := u16_from_le_bytes dl0 dl1 in
    inv0 <- pop_front_unwrap ;; inv1 <- pop_front_unwrap ;;
    let inv_dl := u16_from_le_bytes inv0 inv1 in
    if negb (dl =? u16_not inv_dl) then
      early_return (Res_Err "Invalid message length."%string)
    else
    tt_lb <- pop_front_unwrap ;;
    ss0 <- pop_front_unwrap ;; ss1 <- pop_front_unwrap ;;
    let tt_ss := u16_from_le_bytes ss0 ss1 in
    seqnum <- pop_front_unwrap ;;
    track_seqnum checked seqnum ;;;
    dtype <- pop_front_unwrap ;;
    let datatype := DataType_from dtype in
    datalen <- checked_sub checked 16 dl 1 ;;
    datavec <- read_data (Z.to_nat datalen) [] ;;
    if negb ((dtype + sum_bytes datavec) mod 256 =? cksum) then
      early_return (Res_Err "Invalid checksum."%string)
    else ret (tt_lb, tt_ss, datatype, datavec))).
  { unfold pop_front_unwrap.
    apply shrinks_bind; [apply shrinks_gets|]. intros len.
    destruct (len <? 14).
    - intros s2 a s3 H. cbv [bind push_front modify early_return] in H. discriminate.
    - shrinks_tac. }
  apply Hrest in H1. lia.
Qed.

(** [parse] gives the loop enough fuel: any bound above the ring's length
    gives the same result as a larger one. *)
Lemma parse_loop_fuel checked fuel : forall l s,
  (length (ring s) < fuel)%nat ->
  parse_loop checked (S fuel) l s = parse_loop checked fuel l s.
Proof.
  induction fuel as [|fuel IH]; intros l s Hf; [lia|].
  cbn [parse_loop]. cbv [bind ring_len gets].
  destruct (15 <? Z.of_nat (length (ring s))); [|reflexivity].
  destruct (parse_body checked l s) as [l' s'|r s'|] eqn:E; try reflexivity.
  apply parse_body_shorter in E. apply IH. lia.
Qed.

(** ** Counterexamples *)

(** C3, counterexample: a lone valid signal-quality frame with a 3-byte
    payload is 15 bytes long, so the loop is never entered and [parse]
    returns its initial locals, not the frame's identifier and payload; and
    a lone valid time-sync frame is returned without its payload. *)
Lemma C3_short_frame_not_decoded :
  parse true (fresh (mk_frame 0x1F 6 1 0x84 [9; 0; 0])) =
  Returned (Res_Ok (Some (mkPacket 0 0 0 (DataType_Invalid 255) [])))
           (fresh (mk_frame 0x1F 6 1 0x84 [9; 0; 0])) /\
  parse true (fresh (mk_frame 0x03 1 5 0x8A [0x03; 0x10; 0x00; 0x00])) =
  Returned (Res_Ok (Some (mkPacket 0x1003 1 0 ZeoTimestamp [])))
           (mkState (Some 5) [] []).
Proof. split; vm_compute; reflexivity. Qed.

(** C6, counterexample: a frame declaring 99 payload bytes of which only 4
    have arrived.  [parse] consumes them all, leaves the ring empty and
    returns ["Invalid checksum."], instead of restoring the ring and
    returning [Ok(None)]. *)
Lemma C6_truncated_not_restored :
  parse true (fresh [0x41; 0x34; 0x00; 0x64; 0x00; 0x9B; 0xFF;
                     0x1F; 0x06; 0x00; 0x84; 0x84; 1; 2; 3; 4]) =
  Returned (Res_Err "Invalid checksum.") (mkState (Some 0x84) [] []).
Proof. vm_compute. reflexivity. Qed.

(** ** Further properties: the frame-type tables *)

(** [DataType::from] inverts the declared discriminant on every recognized
    variant, and every other byte becomes [Invalid] of that very byte. *)
Theorem DataType_from_discriminant :
  (forall d, (forall b, d <> DataType_Invalid b) ->
             DataType_from (DataType_discriminant d) = d) /\
  (forall b, (forall d, (forall b', d <> DataType_Invalid b') ->
                        DataType_discriminant d <> b) ->
             DataType_from b = DataType_Invalid b) /\
  (forall b b', DataType_from b = DataType_Invalid b' -> b' = b).
Proof.
  split; [|split].
  - intros d Hd. destruct d; try reflexivity. exfalso. exact (Hd b eq_refl).
  - intros b Hb. unfold DataType_from.
    repeat match goal with
           | |- context [if b =? ?k then ?v else _] =>
               destruct (Z.eqb_spec b k) as [E|];
                 [exfalso; apply (Hb v); [intros ? ?; discriminate | symmetry; exact E]|]
           end.
    reflexivity.
  - intros b b' H. unfold DataType_from in H.
    repeat match type of H with
           | context [?x =? ?y] => destruct (x =? y); [discriminate|]
           end.
    injection H as <-. reflexivity.
Qed.

(** [FrequencyBins::from] inverts the declared discriminant on every
    recognized bin and turns every other byte into [Invalid] of it; on a
    byte, [hz] of the converted bin is [(0, 0)] exactly when the byte is
    above [6], a recognized bin has [min < max], and [is_betta] holds
    exactly for the bytes [3], [4] and [5]. *)
Theorem FrequencyBins_from_hz :
  (forall f, (forall b, f <> FrequencyBins_Invalid b) ->
             FrequencyBins_from (FrequencyBins_discriminant f) = f) /\
  (forall b b', FrequencyBins_from b = FrequencyBins_Invalid b' -> b' = b) /\
  (forall b, 0 <= b < 256 ->
     (FrequencyBins_hz (FrequencyBins_from b) = (0, 0) <-> 6 < b)) /\
  (forall f, (forall b, f <> FrequencyBins_Invalid b) ->
     fst (FrequencyBins_hz f) < snd (FrequencyBins_hz f)) /\
  (forall b, FrequencyBins_is_betta (FrequencyBins_from b) = true <->
             b = 3 \/ b = 4 \/ b = 5).
Proof.
  split; [|split; [|split; [|split]]].
  - intros f Hf. destruct f; try reflexivity. exfalso. exact (Hf b eq_refl).
  - intros b b' H. unfold FrequencyBins_from in H.
    repeat match type of H with
           | context [?x =? ?y] => destruct (x =? y); [discriminate|]
           end.
    injection H as <-. reflexivity.
  - intros b Hb. unfold FrequencyBins_from.
    destruct (Z.eqb_spec b 0); [cbn; split; [discriminate | lia]|].
    destruct (Z.eqb_spec b 1); [cbn; split; [discriminate | lia]|].
    destruct (Z.eqb_spec b 2); [cbn; split; [discriminate | lia]|].
    destruct (Z.eqb_spec b 3); [cbn; split; [discriminate | lia]|].
    destruct (Z.eqb_spec b 4); [cbn; split; [discriminate | lia]|].
    destruct (Z.eqb_spec b 5); [cbn; split; [discriminate | lia]|].
    destruct (Z.eqb_spec b 6); [cbn; split; [discriminate | lia]|].
    cbn. split; [lia | reflexivity].
  - intros f Hf. destruct f; cbn; try lia. exfalso. exact (Hf b eq_refl).
  - intros b. unfold FrequencyBins_from.
    destruct (Z.eqb_spec b 0); [cbn; split; [discriminate | lia]|].
    destruct (Z.eqb_spec b 1); [cbn; split; [discriminate | lia]|].
    destruct (Z.eqb_spec b 2); [cbn; split; [discriminate | lia]|].
    destruct (Z.eqb_spec b 3); [cbn; split; [lia | reflexivity]|].
    destruct (Z.eqb_spec b 4); [cbn; split; [lia | reflexivity]|].
    destruct (Z.eqb_spec b 5); [cbn; split; [lia | reflexivity]|].
    destruct (Z.eqb_spec b 6); [cbn; split; [discriminate | lia]|].
    cbn. split; [discriminate | lia].
Qed.

(** [SleepStages::from] inverts the declared discriminant on every
    recognized stage, and every other byte becomes [Invalid] of it. *)
Theorem SleepStages_from_discriminant :
  (forall st, (forall b, st <> SleepStages_Invalid b) ->
              SleepStages_from (SleepStages_discriminant st) = st) /\
  (forall b, (forall st, (forall b', st <> SleepStages_Invalid b') ->
                         SleepStages_discriminant st <> b) ->
             SleepStages_from b = SleepStages_Invalid b) /\
  (forall b b', SleepStages_from b = SleepStages_Invalid b' -> b' = b).
Proof.
  split; [|split].
  - intros st Hs. destruct st; try reflexivity. exfalso. exact (Hs b eq_refl).
  - intros b Hb. unfold SleepStages_from.
    repeat match goal with
           | |- context [if b =? ?k then ?v else _] =>
               destruct (Z.eqb_spec b k) as [E|];
                 [exfalso; apply (Hb v); [intros ? ?; discriminate | symmetry; exact E]|]
           end.
    reflexivity.
  - intros b b' H. unfold SleepStages_from in H.
    repeat match type of H with
           | context [?x =? ?y] => destruct (x =? y); [discriminate|]
           end.
    injection H as <-. reflexivity.
Qed.

(** ** Further properties: [filter60hz] *)

Section Filter60hzProofs.
Variable R : Type.
Variables (zero : R) (add mul : R -> R -> R).


Lemma map_shift_seq lo n : forall start,
  map (fun j => Z.of_nat lo + Z.of_nat j) (seq start n) = map Z.of_nat (seq (lo + start) n).
Proof.
  induction n as [|n IH]; intros start; [reflexivity|].
  cbn [seq map]. rewrite IH. f_equal; [lia|]. f_equal. f_equal. lia.
Qed.

Lemma range_incl_nat lo hi :
  0 <= lo ->
  range_incl lo hi = map Z.of_nat (seq (Z.to_nat lo) (Z.to_nat (hi - lo + 1))).
Proof.
  intros Hlo. unfold range_incl.
  rewrite <- (Nat.add_0_r (Z.to_nat lo)), <- map_shift_seq.
  apply map_ext. intros j. lia.
Qed.

Lemma filter_seq_interval lo hi len : forall start,
  List.filter (fun i => Nat.leb lo i && Nat.leb i hi) (seq start len) =
  seq (Nat.max start lo) (Nat.min (start + len) (S hi) - Nat.max start lo).
Proof.
  induction len as [|len IH]; intros start.
  - cbn. replace (Nat.min (start + 0) (S hi) - Nat.max start lo)%nat with 0%nat by lia.
    reflexivity.
  - cbn [seq List.filter]. rewrite IH.
    destruct (Nat.leb_spec lo start), (Nat.leb_spec start hi); cbn [andb].
    + replace (Nat.max (S start) lo) with (S start) by lia.
      replace (Nat.max start lo) with start by lia.
      replace (Nat.min (start + S len) (S hi) - start)%nat
        with (S (Nat.min (S start + len) (S hi) - S start)) by lia.
      reflexivity.
    + replace (Nat.min (S start + len) (S hi) - Nat.max (S start) lo)%nat with 0%nat by lia.
      replace (Nat.min (start + S len) (S hi) - Nat.max start lo)%nat with 0%nat by lia.
      reflexivity.
    + replace (Nat.max (S start) lo) with lo by lia.
      replace (Nat.max start lo) with lo by lia.
      f_equal. lia.
    + replace (Nat.min (S start + len) (S hi) - Nat.max (S start) lo)%nat with 0%nat by lia.
      replace (Nat.min (start + S len) (S hi) - Nat.max start lo)%nat with 0%nat by lia.
      reflexivity.
Qed.

Lemma inner_sum_valid checked coeffs a k l : forall t,
  (forall i, In i l -> (i < length a)%nat /\ (i <= k)%nat /\ (k - i < length coeffs)%nat) ->
  fold_left
    (fun acc i =>
       match acc with
       | None => None
       | Some t =>
           match index R a i, usize_sub checked (Z.of_nat k) i with
           | Some x, Some ki =>
               match index R coeffs ki with
               | Some y => Some (add t (mul x y))
               | None => None
               end
           | _, _ => None
           end
       end)
    (map Z.of_nat l) (Some t) =
  Some (fold_left (fun t i => add t (mul (nth i a zero) (nth (k - i) coeffs zero))) l t).
Proof.
  induction l as [|i l IH]; intros t Hl; [reflexivity|].
  cbn [map fold_left].
  destruct (Hl i (or_introl eq_refl)) as (H1 & H2 & H3).
  unfold index. rewrite Nat2Z.id, (nth_error_nth' a zero H1).
  unfold usize_sub. replace (Z.of_nat k <? Z.of_nat i) with false
    by (symmetry; apply Z.ltb_ge; lia).
  replace (Z.to_nat (Z.of_nat k - Z.of_nat i)) with (k - i)%nat by lia.
  rewrite (nth_error_nth' coeffs zero H3).
  apply IH. intros j Hj. apply Hl. right. exact Hj.
Qed.

Lemma inner_sum_conv checked coeffs a k :
  (1 <= length a)%nat -> (1 <= length coeffs)%nat ->
  (k < length a + length coeffs - 1)%nat ->
  inner_sum R zero add mul checked coeffs a (Z.of_nat k)
    (Z.max (Z.of_nat k - (Z.of_nat (length coeffs) - 1)) 0)
    (Z.min (Z.of_nat k) (Z.of_nat (length a) - 1)) =
  Some (conv_at R zero add mul coeffs a k).
Proof.
  intros Hp Hq Hk. unfold inner_sum, conv_at.
  set (p := length a) in *. set (q := length coeffs) in *.
  rewrite range_incl_nat by lia.
  replace (Z.to_nat (Z.max (Z.of_nat k - (Z.of_nat q - 1)) 0)) with (k - (q - 1))%nat by lia.
  replace (Z.to_nat (Z.min (Z.of_nat k) (Z.of_nat p - 1) -
                     Z.max (Z.of_nat k - (Z.of_nat q - 1)) 0 + 1))
    with (Nat.min (S k) p - (k - (q - 1)))%nat by lia.
  rewrite inner_sum_valid.
  - f_equal. f_equal.
    rewrite (filter_ext_in _ (fun i => Nat.leb (k - (q - 1)) i && Nat.leb i (Nat.min k (p - 1)))).
    + rewrite filter_seq_interval. f_equal; lia.
    + intros i Hi. apply in_seq in Hi.
      destruct (Nat.ltb_spec i p), (Nat.ltb_spec (k - i) q),
               (Nat.leb_spec (k - (q - 1)) i), (Nat.leb_spec i (Nat.min k (p - 1)));
        cbn; lia.
  - intros i Hi. apply in_seq in Hi. lia.
Qed.

(** [filter60hz] on an empty signal panics, with or without overflow
    checks: [p - 1] underflows, or, wrapped, lets the loop read [a[0]]. *)
Theorem filter60hz_empty_panics checked coeffs :
  length coeffs = 51%nat ->
  filter60hz R zero add mul checked coeffs [] = None.
Proof.
  intros Hq. unfold filter60hz. rewrite Hq. cbn [length].
  destruct checked; vm_compute; reflexivity.
Qed.

(** [filter60hz] on a non-empty signal of [p] samples never panics and
    returns the [p + 50] terms of the full linear convolution of the signal
    with the 51 coefficients: term [k] sums [a[i] * filter[k - i]], in
    increasing [i], over exactly the index pairs that are in bounds. *)
Theorem filter60hz_convolution checked coeffs a :
  length coeffs = 51%nat -> (1 <= length a)%nat ->
  exists c,
    filter60hz R zero add mul checked coeffs a = Some c /\
    length c = (length a + 50)%nat /\
    forall k, (k < length c)%nat ->
      nth_error c k =
      Some (fold_left (fun t i => add t (mul (nth i a zero) (nth (k - i) coeffs zero)))
              (List.filter (fun i => Nat.ltb i (length a) && Nat.ltb (k - i) 51)
                           (seq 0 (S k)))
              zero).
Proof.
  intros Hq Hp.
  set (N := (length a + 50)%nat).
  assert (Hinv : forall m, (m <= N)%nat ->
    fold_left
      (fun oc k =>
         match oc with
         | None => None
         | Some c =>
             let lower := Z.max (k - (Z.of_nat (length coeffs) - 1)) 0 in
             match usize_sub checked (Z.of_nat (length a)) 1 with
             | None => None
             | Some pm1 =>
                 let upper := Z.min k pm1 in
                 match inner_sum R zero add mul checked coeffs a k lower upper with
                 | None => None
                 | Some t => set_index R c k t
                 end
             end
         end)
      (map Z.of_nat (seq 0 m)) (Some (repeat zero N)) =
    Some (map (conv_at R zero add mul coeffs a) (seq 0 m) ++ repeat zero (N - m))).
  { induction m as [|m IH]; intros Hm; [cbn; rewrite Nat.sub_0_r; reflexivity|].
    rewrite seq_S, map_app, fold_left_app, IH by lia. cbn [map fold_left].
    unfold usize_sub. replace (Z.of_nat (length a) <? 1) with false
      by (symmetry; apply Z.ltb_ge; lia).
    cbv zeta. rewrite inner_sum_conv by lia.
    unfold set_index. rewrite length_app, repeat_length, length_map, length_seq.
    replace ((0 <=? Z.of_nat (0 + m)) && (Z.of_nat (0 + m) <? Z.of_nat (m + (N - m))))
      with true by (symmetry; apply andb_true_iff; split; [apply Z.leb_le | apply Z.ltb_lt]; lia).
    replace (Z.to_nat (Z.of_nat (0 + m))) with m by lia.
    rewrite firstn_app, skipn_app, length_map, length_seq, Nat.sub_diag, firstn_O, app_nil_r.
    rewrite firstn_all2 by (rewrite length_map, length_seq; lia).
    rewrite skipn_all2 by (rewrite length_map, length_seq; lia).
    replace (S m - m)%nat with 1%nat by lia.
    replace (N - m)%nat with (S (N - S m)) by lia. cbn [repeat skipn app].
    rewrite map_app, <- app_assoc. reflexivity. }
  exists (map (conv_at R zero add mul coeffs a) (seq 0 N)).
  split; [|split].
  - unfold filter60hz. rewrite range_incl_nat by lia.
    replace (Z.to_nat (Z.of_nat (length a) + Z.of_nat (length coeffs) - 1 - 1 - 0 + 1)) with N
      by (unfold N; lia).
    replace (Z.to_nat (Z.of_nat (length a) + Z.of_nat (length coeffs) - 1)) with N
      by (unfold N; lia).
    change (Z.to_nat 0) with 0%nat.
    rewrite Hinv by lia. rewrite Nat.sub_diag, app_nil_r. reflexivity.
  - rewrite length_map, length_seq. reflexivity.
  - intros k Hk. rewrite length_map, length_seq in Hk.
    rewrite nth_error_map, nth_error_seq by exact Hk.
    destruct (Nat.ltb_spec k N); [|lia]. cbn. unfold conv_at. rewrite Hq. reflexivity.
Qed.

End Filter60hzProofs.

Lemma filter60hz_empty_panics_witness :
  length filter60hz_coeffs_e4 = 51%nat /\
  filter60hz Z 0 Z.add Z.mul false filter60hz_coeffs_e4 [] = None.
Proof.
  split; [reflexivity|].
  apply (filter60hz_empty_panics Z 0 Z.add Z.mul false filter60hz_coeffs_e4).
  reflexivity.
Defined.

Lemma filter60hz_convolution_witness :
  length filter60hz_coeffs_e4 = 51%nat /\ (1 <= length [2; 3])%nat /\
  exists c,
    filter60hz Z 0 Z.add Z.mul true filter60hz_coeffs_e4 [2; 3] = Some c /\
    length c = (length [2; 3] + 50)%nat /\
    forall k, (k < length c)%nat ->
      nth_error c k =
      Some (fold_left (fun t i => t + nth i [2; 3] 0 * nth (k - i) filter60hz_coeffs_e4 0)
              (List.filter (fun i => Nat.ltb i (length [2; 3]) && Nat.ltb (k - i) 51)
                           (seq 0 (S k)))
              0).
Proof.
  split; [reflexivity|]. split; [cbn; lia|].
  apply (filter60hz_convolution Z 0 Z.add Z.mul true filter60hz_coeffs_e4 [2; 3]).
  - reflexivity.
  - cbn; lia.
Defined.

(** ** Further properties: what [parse] does to its [&mut] state *)

Lemma keeps_refl s : keeps s s.
Proof. split; [exists []; reflexivity | exists []; rewrite app_nil_r; reflexivity]. Qed.

Lemma keeps_trans s1 s2 s3 : keeps s1 s2 -> keeps s2 s3 -> keeps s1 s3.
Proof.
  intros [[p1 H1] [g1 G1]] [[p2 H2] [g2 G2]]. split.
  - exists (p1 ++ p2). rewrite H1, H2, app_assoc. reflexivity.
  - exists (g1 ++ g2). rewrite G2, G1, app_assoc. reflexivity.
Qed.

Lemma consumes_bind {A B} (m : M A) (k : A -> M B) :
  consumes m -> (forall a, consumes (k a)) -> consumes (bind m k).
Proof.
  intros Hm Hk s. specialize (Hm s). unfold bind.
  destruct (m s) as [a s1|r s1|]; [|exact Hm|exact I].
  specialize (Hk a s1). destruct (k a s1); eauto using keeps_trans.
Qed.

Lemma consumes_ret {A} (a : A) : consumes (ret a).
Proof. intros s. apply keeps_refl. Qed.

Lemma consumes_panic {A} : consumes (@panic A).
Proof. intros s. exact I. Qed.

Lemma consumes_early_return {A} r : consumes (@early_return A r).
Proof. intros s. apply keeps_refl. Qed.

Lemma consumes_unwrap {A} (o : option A) : consumes (unwrap o).
Proof. destruct o; [apply consumes_ret | apply consumes_panic]. Qed.

Lemma consumes_gets {A} (f : state -> A) : consumes (gets f).
Proof. intros s. apply keeps_refl. Qed.

Lemma consumes_pop_front : consumes pop_front.
Proof.
  intros [p r g]. unfold pop_front. cbn. destruct r as [|b r]; [apply keeps_refl|].
  split; [exists [b]; reflexivity | exists []; cbn; rewrite app_nil_r; reflexivity].
Qed.

Lemma consumes_pop_front_unwrap : consumes pop_front_unwrap.
Proof.
  apply consumes_bind; [apply consumes_pop_front | intros; apply consumes_unwrap].
Qed.

Lemma consumes_modify f : (forall s, keeps s (f s)) -> consumes (modify f).
Proof. intros Hf s. apply Hf. Qed.

Lemma consumes_checked_sub checked w a b : consumes (checked_sub checked w a b).
Proof.
  unfold checked_sub. destruct (checked && (a <? b));
    [apply consumes_panic | apply consumes_ret].
Qed.

Lemma keeps_set_prev p s : keeps s (set_prev p s).
Proof. split; [exists []; reflexivity | exists []; cbn; rewrite app_nil_r; reflexivity]. Qed.

Lemma keeps_add_lost n s : keeps s (add_lost n s).
Proof. split; [exists []; reflexivity | exists [n]; reflexivity]. Qed.

Create HintDb consumes.
#[local] Hint Resolve consumes_ret consumes_panic consumes_early_return consumes_unwrap
  consumes_gets consumes_pop_front consumes_pop_front_unwrap consumes_checked_sub
  keeps_set_prev keeps_add_lost : consumes.

Lemma consumes_read_data n : forall dv, consumes (read_data n dv).
Proof.
  induction n as [|n IH]; intros dv; cbn [read_data]; [apply consumes_ret|].
  apply consumes_bind; [apply consumes_pop_front|]. intros [b|]; apply IH.
Qed.

Ltac consumes_tac :=
  repeat first
    [ progress (auto with consumes)
    | apply consumes_bind; [ | intros ]
    | apply consumes_modify; intros; auto with consumes
    | match goal with
      | |- consumes (if ?b then _ else _) => destruct b
      | |- consumes (match ?o with _ => _ end) => destruct o
      | |- consumes (let (_, _) := ?p in _) => destruct p
      | |- consumes (let _ := _ in _) => cbv zeta
      end
    | apply consumes_read_data ].

Lemma consumes_track_seqnum checked seqnum : consumes (track_seqnum checked seqnum).
Proof. unfold track_seqnum. consumes_tac. Qed.

Lemma consumes_classify_payload l tl ss dt dv : consumes (classify_payload l tl ss dt dv).
Proof. unfold classify_payload. consumes_tac. Qed.

Lemma find_marker_split r : forall s0 s1 r',
  find_marker s0 s1 r = Some r' -> exists p, s1 :: r = p ++ 0x41 :: 0x34 :: r'.
Proof.
  induction r as [|b r IH]; intros s0 s1 r' H; cbn in H; [discriminate|].
  destruct (Z.eqb_spec s1 0x41), (Z.eqb_spec b 0x34); cbn in H;
    try (injection H as <-; subst; exists []; reflexivity);
    apply IH in H as [p Hp]; exists (s1 :: p); rewrite Hp; reflexivity.
Qed.

Lemma consumes_read_frame checked : consumes (read_frame checked).
Proof.
  intros s. unfold read_frame, bind at 1, scan_marker.
  destruct (find_marker 0 0 (ring s)) as [r'|] eqn:E; [|exact I].
  apply find_marker_split in E as [[|z p] Hp]; [discriminate|].
  injection Hp as _ Hp.
  assert (Hk : keeps s (set_ring r' s)).
  { split; [exists (p ++ [0x41; 0x34]); rewrite Hp, <- app_assoc; reflexivity
           | exists []; cbn; rewrite app_nil_r; reflexivity]. }
  unfold bind at 1, ring_len, gets.
  destruct (Z.of_nat (length (ring (set_ring r' s))) <? 14).
  - cbv [bind push_front modify early_return set_ring ring prev_seqnum lost_log].
    split; [exists p; exact Hp | exists []; rewrite app_nil_r; reflexivity].
  - match goal with
    | |- match ?E ?x with _ => _ end =>
        assert (HE : consumes E) by (consumes_tac; apply consumes_track_seqnum);
        specialize (HE x); destruct (E x); eauto using keeps_trans
    end.
Qed.

Lemma consumes_parse_body checked l : consumes (parse_body checked l).
Proof.
  unfold parse_body. apply consumes_bind; [apply consumes_read_frame|].
  intros [[[tl ss] dt] dv]. apply consumes_classify_payload.
Qed.

Lemma consumes_parse_loop checked fuel : forall l, consumes (parse_loop checked fuel l).
Proof.
  induction fuel as [|fuel IH]; intros l; cbn [parse_loop]; [apply consumes_panic|].
  apply consumes_bind; [apply consumes_gets|]. intros len.
  destruct (15 <? len); [|apply consumes_ret].
  apply consumes_bind; [apply consumes_parse_body | apply IH].
Qed.

(** Whatever [parse] returns, it has only taken bytes from the front of the
    ring, never added or reordered any, and has only appended to the
    lost-sequence report: the ring it leaves is a suffix of the ring it
    got. *)
Theorem parse_consumes_prefix checked s r s' :
  parse checked s = Returned r s' ->
  (exists p, ring s = p ++ ring s') /\
  (exists g, lost_log s' = lost_log s ++ g).
Proof.
  unfold parse. intros H.
  pose proof (consumes_parse_loop checked (S (length (ring s))) init_locals s) as Hc.
  destruct (parse_loop checked (S (length (ring s))) init_locals s);
    try discriminate; injection H as _ <-; exact Hc.
Qed.

Lemma parse_consumes_prefix_witness :
  parse true (fresh (mk_frame 0x1F 6 0x84 0x84 [9; 0; 0; 0] ++ [0x41])) =
  Returned (Res_Ok (Some (mkPacket 0 6 0 Sqi [9; 0; 0; 0])))
           (mkState (Some 0x84) [0x41] []) /\
  (exists p, ring (fresh (mk_frame 0x1F 6 0x84 0x84 [9; 0; 0; 0] ++ [0x41])) =
             p ++ ring (mkState (Some 0x84) [0x41] [])) /\
  (exists g, lost_log (mkState (Some 0x84) [0x41] []) =
             lost_log (fresh (mk_frame 0x1F 6 0x84 0x84 [9; 0; 0; 0] ++ [0x41])) ++ g).
Proof.
  split; [vm_compute; reflexivity|].
  apply (parse_consumes_prefix true _ (Res_Ok (Some (mkPacket 0 6 0 Sqi [9; 0; 0; 0])))).
  vm_compute. reflexivity.
Defined.

(** ** Further properties: the error paths of [parse] *)

(** A header whose length matches its inverse, after bytes without the
    marker: [read_frame] pops it, records the sequence number and goes on
    with the payload read. *)
Lemma read_frame_header checked s pre c d0 d1 i0 i1 tl ss0 ss1 sq id rest :
  ring s = pre ++ 0x41 :: 0x34 :: c :: d0 :: d1 :: i0 :: i1 :: tl :: ss0 :: ss1 ::
           sq :: id :: rest ->
  has_marker (pre ++ [0x41]) = false ->
  (4 <= length rest)%nat ->
  u16_from_le_bytes d0 d1 = u16_not (u16_from_le_bytes i0 i1) ->
  seq_safe checked (prev_seqnum s) sq = true ->
  read_frame checked s =
  (datalen <- checked_sub checked 16 (u16_from_le_bytes d0 d1) 1 ;;
   datavec <- read_data (Z.to_nat datalen) [] ;;
   if negb ((id + sum_bytes datavec) mod 256 =? c) then
     early_return (Res_Err "Invalid checksum."%string)
   else ret (tl, u16_from_le_bytes ss0 ss1, DataType_from id, datavec))
  (mkState (Some sq) rest (lost_log s ++ lost_entry (prev_seqnum s) sq)).
Proof.
  intros Hr Hm Hlen Hdl Hsafe.
  destruct s as [p rg g]. cbn [prev_seqnum ring lost_log] in *. subst rg.
  cbv [read_frame bind scan_marker ring].
  rewrite find_marker_found by (rewrite has_marker_cons_not_A by lia; exact Hm).
  cbv [bind ring_len gets set_ring ring].
  replace (Z.of_nat (length (c :: d0 :: d1 :: i0 :: i1 :: tl :: ss0 :: ss1 :: sq ::
                             id :: rest)) <? 14) with false
    by (symmetry; apply Z.ltb_ge; cbn [length]; lia).
  cbv [pop_front_unwrap pop_front unwrap ret set_ring bind ring prev_seqnum lost_log].
  rewrite <- Hdl, Z.eqb_refl. cbn [negb].
  cbv [pop_front_unwrap pop_front unwrap ret set_ring bind ring prev_seqnum lost_log].
  rewrite track_seqnum_safe by exact Hsafe.
  reflexivity.
Qed.

Lemma mk_frame_header tl subsec sq id payload :
  mk_frame tl subsec sq id payload =
  0x41 :: 0x34 :: (id + sum_bytes payload) mod 256 ::
  (1 + Z.of_nat (length payload)) mod 256 :: (1 + Z.of_nat (length payload)) / 256 ::
  u16_not (1 + Z.of_nat (length payload)) mod 256 ::
  u16_not (1 + Z.of_nat (length payload)) / 256 ::
  tl :: subsec mod 256 :: subsec / 256 :: sq :: id :: payload.
Proof. reflexivity. Qed.

Lemma mk_frame_length_ok (payload : list Z) :
  Z.of_nat (length payload) < 65535 ->
  let dl := 1 + Z.of_nat (length payload) in
  u16_from_le_bytes (dl mod 256) (dl / 256) =
  u16_not (u16_from_le_bytes (u16_not dl mod 256) (u16_not dl / 256)) /\
  u16_from_le_bytes (dl mod 256) (dl / 256) = dl.
Proof.
  intros Hdl dl.
  rewrite (u16_le_split dl) by (unfold dl; lia).
  rewrite (u16_le_split (u16_not dl)) by apply u16_not_range.
  rewrite (u16_not_small dl), (u16_not_small (65535 - dl)) by (unfold dl; lia).
  split; lia.
Qed.

(** A ring holding bytes without the marker, then a frame whose length
    field matches its inverse, whose payload is shorter than 65535 bytes
    and whose checksum byte [c] is not the sum of its identifier and
    payload, then trailing bytes, with at least 4 bytes after the frame
    header in all; the sequence diagnostic does not underflow ([seq_safe]:
    always so without overflow checks).  Then [parse] returns
    ["Invalid checksum."] after consuming the whole frame, the trailing
    bytes stay in the ring, and the frame's sequence number is already
    recorded as [prev_seqnum]. *)
Theorem parse_bad_checksum checked s pre c tl subsec sq id payload trail :
  ring s = pre ++ [0x41; 0x34; c] ++ skipn 3 (mk_frame tl subsec sq id payload) ++ trail ->
  has_marker (pre ++ [0x41]) = false ->
  Z.of_nat (length payload) < 65535 ->
  (4 <= length payload + length trail)%nat ->
  c <> (id + sum_bytes payload) mod 256 ->
  seq_safe checked (prev_seqnum s) sq = true ->
  parse checked s =
  Returned (Res_Err "Invalid checksum.")
           (mkState (Some sq) trail (lost_log s ++ lost_entry (prev_seqnum s) sq)).
Proof.
  intros Hr Hm Hdl Hlen Hc Hsafe.
  destruct (mk_frame_length_ok payload Hdl) as [Hinv Hdl'].
  set (dl := 1 + Z.of_nat (length payload)) in *.
  rewrite mk_frame_header in Hr. fold dl in Hr. cbn [skipn app] in Hr.
  unfold parse. rewrite parse_loop_enter by (rewrite Hr, length_app; cbn [length];
                                             rewrite length_app; lia).
  erewrite bind_Exit; [reflexivity|]. unfold parse_body. apply bind_Exit.
  rewrite (read_frame_header checked s pre c _ _ _ _ tl _ _ sq id (payload ++ trail) Hr Hm)
    by (try exact Hinv; try exact Hsafe; rewrite length_app; lia).
  rewrite Hdl'. unfold checked_sub.
  replace (checked && (dl <? 1)) with false
    by (destruct checked; [symmetry; apply Z.ltb_ge; unfold dl; lia | reflexivity]).
  unfold bind at 1, ret.
  replace (Z.to_nat ((dl - 1) mod 2 ^ 16)) with (length payload)
    by (rewrite Z.mod_small by (change (2 ^ 16) with 65536; unfold dl; lia);
        unfold dl; lia).
  rewrite (bind_Cont _ _ _ _ _ (read_data_full payload (length payload) []
    (mkState (Some sq) (payload ++ trail) (lost_log s ++ lost_entry (prev_seqnum s) sq))
    trail eq_refl eq_refl)).
  change ([] ++ payload) with payload. cbv [set_ring ring prev_seqnum lost_log].
  replace ((id + sum_bytes payload) mod 256 =? c) with false
    by (symmetry; apply Z.eqb_neq; congruence).
  reflexivity.
Qed.

Lemma parse_bad_checksum_witness :
  let s := fresh ([0x41; 0x34; 0x00] ++ skipn 3 (mk_frame 0x1F 6 7 0x84 [9; 0; 0; 0])) in
  s = fresh ([] ++ [0x41; 0x34; 0x00] ++ skipn 3 (mk_frame 0x1F 6 7 0x84 [9; 0; 0; 0]) ++ []) /\
  parse true s = Returned (Res_Err "Invalid checksum.") (mkState (Some 7) [] []).
Proof.
  intros s. split; [reflexivity|].
  apply (parse_bad_checksum true s [] 0x00 0x1F 6 7 0x84 [9; 0; 0; 0] []);
    try reflexivity; try (cbn; lia); vm_compute; discriminate.
Defined.

(** A ring holding bytes without the marker, then a well-formed frame
    (length and inverse, checksum, a [u16] sub-second counter, a payload
    shorter than 65535 bytes) whose identifier is no [DataType], then
    trailing bytes, with at least 4 bytes after the frame header in all;
    the sequence diagnostic does not underflow ([seq_safe]).  Then
    [parse] returns ["Bad datatype: {{b:02X}}"] (the placeholder is not
    formatted) after consuming the frame, the trailing bytes stay in the
    ring and the frame's sequence number is recorded. *)
Theorem parse_bad_datatype checked s pre tl subsec sq id payload trail :
  ring s = pre ++ mk_frame tl subsec sq id payload ++ trail ->
  has_marker (pre ++ [0x41]) = false ->
  0 <= subsec < 65536 ->
  Z.of_nat (length payload) < 65535 ->
  (4 <= length payload + length trail)%nat ->
  DataType_from id = DataType_Invalid id ->
  seq_safe checked (prev_seqnum s) sq = true ->
  parse checked s =
  Returned (Res_Err "Bad datatype: {{b:02X}}")
           (mkState (Some sq) trail (lost_log s ++ lost_entry (prev_seqnum s) sq)).
Proof.
  intros Hr Hm Hss Hdl Hlen Hid Hsafe.
  unfold parse.
  rewrite parse_loop_enter
    by (rewrite Hr, !length_app; unfold mk_frame; rewrite length_app; cbn [length]; lia).
  erewrite bind_Exit; [reflexivity|]. unfold parse_body.
  rewrite (bind_Cont _ _ _ _ _ (read_frame_valid checked s pre tl subsec sq id payload trail
                                  Hr Hm Hss Hdl Hlen Hsafe)).
  rewrite Hid. reflexivity.
Qed.

Lemma parse_bad_datatype_witness :
  let s := fresh (mk_frame 0x1F 6 7 0x42 [9; 0; 0; 0]) in
  s = fresh ([] ++ mk_frame 0x1F 6 7 0x42 [9; 0; 0; 0] ++ []) /\
  DataType_from 0x42 = DataType_Invalid 0x42 /\
  parse false s = Returned (Res_Err "Bad datatype: {{b:02X}}") (mkState (Some 7) [] []).
Proof.
  intros s. split; [reflexivity|]. split; [reflexivity|].
  apply (parse_bad_datatype false s [] 0x1F 6 7 0x42 [9; 0; 0; 0] []);
    try reflexivity; cbn; lia.
Defined.

(** A ring of at most 15 bytes is left untouched, whatever it holds (even
    a complete frame), and [parse] returns its initial locals as
    [Ok(Some((0, 0, 0, Invalid(255), [])))], not [Ok(None)]. *)
Theorem parse_short_ring checked s :
  (length (ring s) <= 15)%nat ->
  parse checked s = Returned (Res_Ok (Some (mkPacket 0 0 0 (DataType_Invalid 255) []))) s.
Proof. intros H. unfold parse. rewrite parse_loop_leave by exact H. reflexivity. Qed.

Lemma parse_short_ring_witness :
  let s := fresh (mk_frame 0x1F 6 1 0x84 [9; 0; 0]) in
  (length (ring s) <= 15)%nat /\
  parse true s = Returned (Res_Ok (Some (mkPacket 0 0 0 (DataType_Invalid 255) []))) s.
Proof.
  intros s. split; [cbn; lia|]. apply parse_short_ring. cbn; lia.
Defined.

Lemma classify_payload_state l tl ss dt dv s :
  (3 <= length dv)%nat ->
  match classify_payload l tl ss dt dv s with
  | Cont _ s' | Exit _ s' => s' = s
  | Crash => False
  end.
Proof.
  intros H. unfold classify_payload.
  destruct dt; try reflexivity;
    destruct dv as [|b0 [|b1 [|b2 [|b3 r]]]]; cbn in H; try lia; reflexivity.
Qed.

(** A ring holding bytes without the marker, then a frame header
    declaring length [0] with the matching inverse [0xFFFF], then between
    4 and 65535 further bytes.  With overflow checks, and no underflow in
    the sequence diagnostic ([seq_safe]), [dl - 1] underflows and [parse]
    panics.  Without them, the payload length wraps to [65535], every
    byte after the header is read as the payload and [parse] returns, with
    an empty ring and the frame's sequence number recorded. *)
Theorem parse_zero_length s pre c tl ss0 ss1 sq id data :
  ring s = pre ++ 0x41 :: 0x34 :: c :: 0 :: 0 :: 0xFF :: 0xFF :: tl :: ss0 :: ss1 ::
           sq :: id :: data ->
  has_marker (pre ++ [0x41]) = false ->
  (4 <= length data)%nat -> Z.of_nat (length data) <= 65535 ->
  (seq_safe true (prev_seqnum s) sq = true -> parse true s = Panicked) /\
  (exists r, parse false s =
             Returned r (mkState (Some sq) [] (lost_log s ++ lost_entry (prev_seqnum s) sq))).
Proof.
  intros Hr Hm Hlen Hmax.
  assert (Hring : (16 <= length (ring s))%nat) by (rewrite Hr, length_app; cbn [length]; lia).
  assert (Hinv : u16_from_le_bytes 0 0 = u16_not (u16_from_le_bytes 0xFF 0xFF))
    by reflexivity.
  split.
  - intros Hsafe. unfold parse. rewrite parse_loop_enter by lia.
    rewrite bind_Crash; [reflexivity|]. unfold parse_body. apply bind_Crash.
    rewrite (read_frame_header true s pre c 0 0 0xFF 0xFF tl ss0 ss1 sq id data Hr Hm)
      by (try exact Hinv; try exact Hsafe; lia).
    reflexivity.
  - set (s' := mkState (Some sq) [] (lost_log s ++ lost_entry (prev_seqnum s) sq)).
    assert (Hrf : read_frame false s =
      if (id + sum_bytes data) mod 256 =? c
      then Cont (tl, u16_from_le_bytes ss0 ss1, DataType_from id, data) s'
      else Exit (Res_Err "Invalid checksum."%string) s').
    { rewrite (read_frame_header false s pre c 0 0 0xFF 0xFF tl ss0 ss1 sq id data Hr Hm)
        by (try exact Hinv; try (unfold seq_safe; destruct (prev_seqnum s); reflexivity); lia).
      change (checked_sub false 16 (u16_from_le_bytes 0 0) 1) with (@ret Z 65535).
      rewrite (bind_Cont (@ret Z 65535) _ _ 65535 _ eq_refl).
      rewrite (bind_Cont _ _ _ _ _ (read_data_short (Z.to_nat 65535) data []
        (mkState (Some sq) data (lost_log s ++ lost_entry (prev_seqnum s) sq))
        eq_refl ltac:(apply Nat2Z.inj_le; rewrite Z2Nat.id by lia; exact Hmax))).
      change ([] ++ data) with data.
      destruct ((id + sum_bytes data) mod 256 =? c); reflexivity. }
    unfold parse. rewrite parse_loop_enter by lia.
    destruct (length (ring s)) as [|n] eqn:En; [lia|].
    unfold parse_body.
    destruct ((id + sum_bytes data) mod 256 =? c) eqn:Hck.
    + pose proof (classify_payload_state init_locals tl (u16_from_le_bytes ss0 ss1)
                    (DataType_from id) data s' ltac:(lia)) as Hcs.
      destruct (classify_payload init_locals tl (u16_from_le_bytes ss0 ss1)
                  (DataType_from id) data s') as [l' s1|r s1|] eqn:Hc;
        [subst s1 | subst s1 | contradiction].
      * rewrite (bind_Cont _ _ s l' s').
        2:{ rewrite (bind_Cont _ _ _ _ _ Hrf). exact Hc. }
        rewrite parse_loop_leave by (cbn; lia). eexists. reflexivity.
      * rewrite (bind_Exit _ _ s r s').
        2:{ rewrite (bind_Cont _ _ _ _ _ Hrf). exact Hc. }
        eexists. reflexivity.
    + rewrite (bind_Exit _ _ _ _ _ (bind_Exit _ _ _ _ _ Hrf)). eexists. reflexivity.
Qed.

Lemma parse_zero_length_witness :
  let s := fresh [0x41; 0x34; 0x84; 0; 0; 0xFF; 0xFF; 0x1F; 6; 0; 7; 0x84; 9; 0; 0; 0] in
  s = fresh ([] ++ [0x41; 0x34; 0x84; 0; 0; 0xFF; 0xFF; 0x1F; 6; 0; 7; 0x84] ++
             [9; 0; 0; 0]) /\
  parse true s = Panicked /\
  (exists r, parse false s = Returned r (mkState (Some 7) [] [])).
Proof.
  intros s. split; [reflexivity|].
  destruct (parse_zero_length s [] 0x84 0x1F 6 0 7 0x84 [9; 0; 0; 0])
    as [H1 H2]; try reflexivity; try (cbn; lia).
  split; [apply H1; reflexivity | exact H2].
Defined.



Lemma firstn_mk_frame k tl subsec sq id payload :
  (2 <= k)%nat ->
  firstn k (mk_frame tl subsec sq id payload) =
  0x41 :: 0x34 :: firstn (k - 2) (skipn 2 (mk_frame tl subsec sq id payload)).
Proof.
  intros Hk. destruct k as [|[|k]]; [lia | lia |].
  replace (S (S k) - 2)%nat with k by lia. reflexivity.
Qed.

(** A frame that arrives in two pieces.  Take a well-formed frame (length
    and inverse, checksum, [u16] sub-second counter, payload shorter than
    65535 bytes) of a recognized data type, a time-sync or version frame
    having at least 3 payload bytes, and whose sequence diagnostic does
    not underflow ([seq_safe]); let the first call see bytes without the
    marker then only the frame's first [k] bytes, [2 <= k < 16], the ring
    holding more than 15 bytes in all.  That call drops what precedes the
    marker, keeps the frame's start in the ring and returns [Ok(None)].
    Once the rest of the frame and at most 15 trailing bytes are appended
    (at least 4 bytes after the header in all), the next call decodes the
    frame as if it had arrived whole. *)
Theorem parse_split_frame checked s pre tl subsec sq id payload k trail :
  ring s = pre ++ firstn k (mk_frame tl subsec sq id payload) ->
  has_marker (pre ++ [0x41]) = false ->
  (15 < length (ring s))%nat ->
  (2 <= k < 16)%nat ->
  0 <= subsec < 65536 ->
  Z.of_nat (length payload) < 65535 ->
  (4 <= length payload + length trail)%nat ->
  (length trail <= 15)%nat ->
  (forall b, DataType_from id <> DataType_Invalid b) ->
  ((DataType_from id = ZeoTimestamp \/ DataType_from id = Version) ->
   3 <= length payload)%nat ->
  seq_safe checked (prev_seqnum s) sq = true ->
  parse checked s =
  Returned (Res_Ok None) (set_ring (firstn k (mk_frame tl subsec sq id payload)) s) /\
  exists pk,
    parse checked (set_ring (firstn k (mk_frame tl subsec sq id payload) ++
                             skipn k (mk_frame tl subsec sq id payload) ++ trail) s) =
    Returned (Res_Ok (Some pk))
             (mkState (Some sq) trail (lost_log s ++ lost_entry (prev_seqnum s) sq)) /\
    pk_datatype pk = DataType_from id /\
    pk_subsec pk = subsec /\
    pk_data pk = match DataType_from id with
                 | ZeoTimestamp | Version => skipn 4 payload
                 | _ => payload
                 end.
Proof.
  intros Hr Hm Hlen Hk Hss Hdl Hlen' Htrail Hinv H3 Hsafe.
  set (frame := mk_frame tl subsec sq id payload) in *.
  assert (Hf : firstn k frame = 0x41 :: 0x34 :: firstn (k - 2) (skipn 2 frame))
    by (apply firstn_mk_frame; lia).
  split.
  - rewrite Hf in Hr |- *.
    unfold parse. rewrite parse_loop_enter by exact Hlen.
    erewrite bind_Exit; [reflexivity|]. unfold parse_body. apply bind_Exit.
    unfold read_frame.
    rewrite (bind_Cont _ _ _ _ _ (scan_marker_found s pre _ Hr Hm)).
    cbv [bind ring_len gets set_ring ring].
    replace (Z.of_nat (length (firstn (k - 2) (skipn 2 frame))) <? 14) with true
      by (symmetry; apply Z.ltb_lt; rewrite length_firstn; lia).
    reflexivity.
  - destruct (parse_one_frame checked
                (set_ring (firstn k frame ++ skipn k frame ++ trail) s)
                [] tl subsec sq id payload trail)
      as (l' & Hp & Hss' & Hdt & Hdv & _); try assumption.
    + cbn [set_ring ring]. rewrite app_assoc, firstn_skipn. reflexivity.
    + reflexivity.
    + exists (mkPacket (zeo_time_full l') (tt_ss l') (zeo_version l') (datatype l')
                       (datavec l')).
      split; [exact Hp|]. cbn. auto.
Qed.

Lemma parse_split_frame_witness :
  let s := fresh (repeat 0 10 ++ firstn 8 (mk_frame 0x1F 6 7 0x84 [9; 0; 0; 0])) in
  let frame := mk_frame 0x1F 6 7 0x84 [9; 0; 0; 0] in
  parse true s = Returned (Res_Ok None) (set_ring (firstn 8 frame) s) /\
  exists pk,
    parse true (set_ring (firstn 8 frame ++ skipn 8 frame ++ []) s) =
    Returned (Res_Ok (Some pk))
             (mkState (Some 7) [] (lost_log s ++ lost_entry (prev_seqnum s) 7)) /\
    pk_datatype pk = DataType_from 0x84 /\
    pk_subsec pk = 6 /\
    pk_data pk = match DataType_from 0x84 with
                 | ZeoTimestamp | Version => skipn 4 [9; 0; 0; 0]
                 | _ => [9; 0; 0; 0]
                 end.
Proof.
  intros s frame.
  apply (parse_split_frame true s (repeat 0 10) 0x1F 6 7 0x84 [9; 0; 0; 0] 8 []);
    try reflexivity; try (cbn; lia); try (intros b; discriminate);
    try (intros [H|H]; discriminate).
Defined.

(** ** Further properties: the [Display] texts *)

Lemma all_bytes_pairs (P : Z -> Z -> bool) :
  forallb (fun b1 => forallb (P b1) all_bytes) all_bytes = true ->
  forall b1 b2, 0 <= b1 < 256 -> 0 <= b2 < 256 -> P b1 b2 = true.
Proof.
  intros H b1 b2 H1 H2.
  assert (Hin : forall b, 0 <= b < 256 -> In b all_bytes).
  { intros b Hb. unfold all_bytes. replace b with (Z.of_nat (Z.to_nat b)) by lia.
    apply in_map, in_seq. lia. }
  rewrite forallb_forall in H. specialize (H b1 (Hin b1 H1)).
  rewrite forallb_forall in H. exact (H b2 (Hin b2 H2)).
Qed.

Lemma display_injective_of_check {T} (from : Z -> T) (fmt : T -> string) :
  forallb (fun b1 => forallb (fun b2 =>
             implb (String.eqb (fmt (from b1)) (fmt (from b2))) (b1 =? b2)) all_bytes)
          all_bytes = true ->
  forall b1 b2, 0 <= b1 < 256 -> 0 <= b2 < 256 ->
  fmt (from b1) = fmt (from b2) -> b1 = b2.
Proof.
  intros Hc b1 b2 H1 H2 E.
  pose proof (all_bytes_pairs _ Hc b1 b2 H1 H2) as H. cbv beta in H.
  apply String.eqb_eq in E. rewrite E in H. cbn [implb] in H.
  apply Z.eqb_eq. exact H.
Qed.

(** The [Display] text of what [From<u8>] makes of a byte determines the
    byte, for each of the four tables: no two bytes print alike, and no
    [Invalid(..)] text coincides with a variant name. *)
Theorem display_from_injective :
  (forall b1 b2, 0 <= b1 < 256 -> 0 <= b2 < 256 ->
     DataType_fmt (DataType_from b1) = DataType_fmt (DataType_from b2) -> b1 = b2) /\
  (forall b1 b2, 0 <= b1 < 256 -> 0 <= b2 < 256 ->
     EventType_fmt (EventType_from b1) = EventType_fmt (EventType_from b2) -> b1 = b2) /\
  (forall b1 b2, 0 <= b1 < 256 -> 0 <= b2 < 256 ->
     FrequencyBins_fmt (FrequencyBins_from b1) = FrequencyBins_fmt (FrequencyBins_from b2) ->
     b1 = b2) /\
  (forall b1 b2, 0 <= b1 < 256 -> 0 <= b2 < 256 ->
     SleepStages_fmt (SleepStages_from b1) = SleepStages_fmt (SleepStages_from b2) -> b1 = b2).
Proof.
  split; [|split; [|split]]; apply display_injective_of_check; vm_compute; reflexivity.
Qed.

(** ** Further properties: the frequency-bin predicates *)

(** Exactly one of [is_delta], [is_theta], [is_alpha], [is_gamma] and
    [is_betta] holds for every recognized bin, and none for an [Invalid]
    one; on the bin made from a byte, one of the five predicates holds
    exactly when the byte is at most [6]. *)
Theorem FrequencyBins_predicates_partition :
  (forall f,
     length (List.filter (fun x => x)
       [FrequencyBins_is_delta f; FrequencyBins_is_theta f; FrequencyBins_is_alpha f;
        FrequencyBins_is_gamma f; FrequencyBins_is_betta f]) =
     match f with FrequencyBins_Invalid _ => 0%nat | _ => 1%nat end) /\
  (forall b, 0 <= b < 256 ->
     (FrequencyBins_is_delta (FrequencyBins_from b) ||
      FrequencyBins_is_theta (FrequencyBins_from b) ||
      FrequencyBins_is_alpha (FrequencyBins_from b) ||
      FrequencyBins_is_gamma (FrequencyBins_from b) ||
      FrequencyBins_is_betta (FrequencyBins_from b) = true <-> b <= 6)).
Proof.
  split.
  - intros f. destruct f; reflexivity.
  - intros b Hb. unfold FrequencyBins_from.
    destruct (Z.eqb_spec b 0); [cbn; split; [lia | reflexivity]|].
    destruct (Z.eqb_spec b 1); [cbn; split; [lia | reflexivity]|].
    destruct (Z.eqb_spec b 2); [cbn; split; [lia | reflexivity]|].
    destruct (Z.eqb_spec b 3); [cbn; split; [lia | reflexivity]|].
    destruct (Z.eqb_spec b 4); [cbn; split; [lia | reflexivity]|].
    destruct (Z.eqb_spec b 5); [cbn; split; [lia | reflexivity]|].
    destruct (Z.eqb_spec b 6); [cbn; split; [lia | reflexivity]|].
    cbn. split; [discriminate | lia].
Qed.
